(** * NanoStat: the command line front end of nanostat/NanoStat.py

    The script is orchestration only: [get_args] declares an argparse
    parser, [get_input] dispatches on the data source that was given,
    and [main] creates the output directory, loads the dataset, picks
    the destination of the report and calls [write_stats].

    The development embeds these three functions.  Calls that leave the
    script ([os.path.exists], [os.makedirs], the three [nanoget] loaders
    and [nanomath.write_stats]) are nodes of a program tree that is run
    against a record of externals; what [argparse] does with the
    declarations of [get_args] is written out for exactly the options
    that [get_args] declares. *)

From Stdlib Require Import String Ascii List ZArith Bool Lia.
Import ListNotations.
Local Open Scope string_scope.

(** ** Python values the script tests for truth *)

(** [if s:] on a [str]. *)
Definition truthy_str (s : string) : bool :=
  match s with
  | EmptyString => false
  | String _ _ => true
  end.

(** [if x:] on a value that is [None] or a [str]. *)
Definition truthy (x : option string) : bool :=
  match x with
  | None => false
  | Some s => truthy_str s
  end.

(** ** posixpath.join, for the two arguments [main] passes *)

Definition sep : string := "/".

Definition startswith_sep (b : string) : bool :=
  match b with
  | String c _ => Ascii.eqb c "/"%char
  | EmptyString => false
  end.

Fixpoint endswith_sep (a : string) : bool :=
  match a with
  | EmptyString => false
  | String c EmptyString => Ascii.eqb c "/"%char
  | String _ rest => endswith_sep rest
  end.

(** [os.path.join(a, b)]: an absolute [b] replaces [a]; an empty [a] or
    one that ends in the separator is extended by [b] alone; otherwise
    one separator goes in between. *)
Definition os_path_join (a b : string) : string :=
  if startswith_sep b then b
  else if negb (truthy_str a) || endswith_sep a then a ++ b
  else a ++ sep ++ b.

(** ** posixpath.dirname and the chain of directories above a path *)

Definition is_sep (c : ascii) : bool := Ascii.eqb c "/"%char.

Fixpoint drop_while (f : ascii -> bool) (l : list ascii) : list ascii :=
  match l with
  | [] => []
  | c :: rest => if f c then drop_while f rest else l
  end.

(** [os.path.dirname(p)]: everything up to the last separator, the
    trailing separators of that head removed unless it is made of
    separators only. *)
Definition dirname (p : string) : string :=
  let head :=
    drop_while (fun c => negb (is_sep c)) (rev (list_ascii_of_string p)) in
  let head' := if forallb is_sep head then head else drop_while is_sep head in
  string_of_list_ascii (rev head').

Fixpoint ancestors_upto (fuel : nat) (p : string) : list string :=
  match fuel with
  | O => []
  | S fuel' =>
      let h := dirname p in
      if String.eqb h "" || String.eqb h p then []
      else h :: ancestors_upto fuel' h
  end.

(** The directories a path lies in, nearest first: the intermediate
    directories [os.makedirs] has to make. *)
Definition ancestors (p : string) : list string :=
  ancestors_upto (String.length p) p.

(** ** The namespace [parse_args] returns *)

Record Namespace : Type := mkNamespace {
  outdir : string;
  prefix : string;
  name : string;
  threads : Z;
  readtype : string;
  fastq : option string;
  summary : option string;
  bam : option string
}.

Definition set_outdir (v : string) (ns : Namespace) : Namespace :=
  mkNamespace v (prefix ns) (name ns) (threads ns) (readtype ns)
              (fastq ns) (summary ns) (bam ns).
Definition set_prefix (v : string) (ns : Namespace) : Namespace :=
  mkNamespace (outdir ns) v (name ns) (threads ns) (readtype ns)
              (fastq ns) (summary ns) (bam ns).
Definition set_name (v : string) (ns : Namespace) : Namespace :=
  mkNamespace (outdir ns) (prefix ns) v (threads ns) (readtype ns)
              (fastq ns) (summary ns) (bam ns).
Definition set_threads (v : Z) (ns : Namespace) : Namespace :=
  mkNamespace (outdir ns) (prefix ns) (name ns) v (readtype ns)
              (fastq ns) (summary ns) (bam ns).
Definition set_readtype (v : string) (ns : Namespace) : Namespace :=
  mkNamespace (outdir ns) (prefix ns) (name ns) (threads ns) v
              (fastq ns) (summary ns) (bam ns).
Definition set_fastq (v : string) (ns : Namespace) : Namespace :=
  mkNamespace (outdir ns) (prefix ns) (name ns) (threads ns) (readtype ns)
              (Some v) (summary ns) (bam ns).
Definition set_summary (v : string) (ns : Namespace) : Namespace :=
  mkNamespace (outdir ns) (prefix ns) (name ns) (threads ns) (readtype ns)
              (fastq ns) (Some v) (bam ns).
Definition set_bam (v : string) (ns : Namespace) : Namespace :=
  mkNamespace (outdir ns) (prefix ns) (name ns) (threads ns) (readtype ns)
              (fastq ns) (summary ns) (Some v).

(** ** The command line, as argparse recognises it *)

(** The three members of the mutually exclusive group [target]. *)
Inductive source : Type := Fastq | Summary | Bam.

Definition source_eqb (a b : source) : bool :=
  match a, b with
  | Fastq, Fastq | Summary, Summary | Bam, Bam => true
  | _, _ => false
  end.

(** The options of [get_args] that store one argument. *)
Inductive option_name : Type :=
| Outdir | Prefix | Name | Threads | Readtype
| Target (s : source).

(** One element of the command line after argparse has matched the
    option strings: [-o DIR], [--outdir DIR], [--outdir=DIR] and an
    unambiguous abbreviation such as [--out DIR] are all
    [Given Outdir DIR].  How the strings are spelled is argparse's
    business and is not part of this file. *)
Inductive arg : Type :=
| Given (o : option_name) (v : string)  (* the option with its argument *)
| Bare (o : option_name)                (* the option, its argument missing *)
| VersionFlag                           (* -v, --version *)
| HelpFlag                              (* -h, --help, added by ArgumentParser *)
| Unrecognized (s : string).            (* anything no declaration matches *)

Inductive usage_error : Type :=
| ExpectedOneArgument (o : option_name)
| InvalidIntValue (v : string)
| InvalidChoice (v : string)
| NotAllowedWith (given earlier : source)
| OneOfRequired
| UnrecognizedArguments (extras : list string).

(** [parse_args] returns the namespace, or leaves through [sys.exit]:
    status 0 after printing the version or the help, status 2 from
    [parser.error]. *)
Inductive parsed : Type :=
| Parsed (args : Namespace)
| PrintedAndExit
| UsageError (e : usage_error).

Definition choices : list string := ["1D"; "2D"; "1D2"].

Definition in_choices (v : string) : bool :=
  existsb (String.eqb v) choices.

Definition seen_other (s : source) (seen : list source) : option source :=
  find (fun s' => negb (source_eqb s s')) seen.

Section Argparse.

(** The built-in [int], as [type=int] applies it to the argument of
    [--threads]: [None] stands for [ValueError]. *)
Variable int : string -> option Z.

(** The value of one stored option: the conversion and the choices
    check come first, the mutual exclusion check second, then the
    attribute is set. *)
Definition store (o : option_name) (v : string) (seen : list source)
    (ns : Namespace) : usage_error + (Namespace * list source) :=
  match o with
  | Outdir => inr (set_outdir v ns, seen)
  | Prefix => inr (set_prefix v ns, seen)
  | Name => inr (set_name v ns, seen)
  | Threads =>
      match int v with
      | Some n => inr (set_threads n ns, seen)
      | None => inl (InvalidIntValue v)
      end
  | Readtype =>
      if in_choices v then inr (set_readtype v ns, seen)
      else inl (InvalidChoice v)
  | Target s =>
      match seen_other s seen with
      | Some earlier => inl (NotAllowedWith s earlier)
      | None =>
          inr (match s with
               | Fastq => set_fastq v ns
               | Summary => set_summary v ns
               | Bam => set_bam v ns
               end, s :: seen)
      end
  end.

(** The options are consumed from left to right.  The version and help
    actions leave at once; an error leaves at the option that causes
    it; the required group and the unmatched strings are checked when
    the command line is used up. *)
Fixpoint consume (argv : list arg) (seen : list source)
    (extras : list string) (ns : Namespace) : parsed :=
  match argv with
  | [] =>
      match seen with
      | [] => UsageError OneOfRequired
      | _ :: _ =>
          match extras with
          | [] => Parsed ns
          | _ :: _ => UsageError (UnrecognizedArguments (rev extras))
          end
      end
  | VersionFlag :: _ => PrintedAndExit
  | HelpFlag :: _ => PrintedAndExit
  | Bare o :: _ => UsageError (ExpectedOneArgument o)
  | Unrecognized s :: rest => consume rest seen (s :: extras) ns
  | Given o v :: rest =>
      match store o v seen ns with
      | inl e => UsageError e
      | inr (ns', seen') => consume rest seen' extras ns'
      end
  end.

(** The defaults of the declarations in [get_args]; the members of the
    group have none, so they start as [None]. *)
Definition defaults : Namespace :=
  mkNamespace "." "" "" 4%Z "1D" None None None.

Definition get_args (argv : list arg) : parsed :=
  consume argv [] [] defaults.

End Argparse.

(** ** Exceptions and the end of a run *)

Record exn : Type := mkExn { exn_class : string; exn_message : string }.

Definition FileExistsError (path : string) : exn :=
  mkExn "FileExistsError" path.

(** How a program ends: it returns, an exception leaves it, or
    [sys.exit] was called. *)
Inductive outcome (A : Type) : Type :=
| Returned (a : A)
| Raised (e : exn)
| Exited (status : Z).
Arguments Returned {A} a.
Arguments Raised {A} e.
Arguments Exited {A} status.

(** The status the process ends with. *)
Definition process_status {A : Type} (o : outcome A) : Z :=
  match o with
  | Returned _ => 0
  | Raised _ => 1
  | Exited n => n
  end.

(** ** Programs over the calls the script makes *)

Section Script.

(** The table of per-read metrics the loaders return; the script only
    passes it on. *)
Variable DataFrame : Type.

(** A call that leaves the script, with its arguments. *)
Inductive call : Type :=
| os_path_exists (path : string)
| os_makedirs (path : string)
| process_fastq_plain (path : string) (nthreads : Z)
| process_bam (path : string) (nthreads : Z)
| process_summary (path : string) (rtype : string)
| write_stats (datadf : option DataFrame) (output : string).

(** What came back from a call. *)
Inductive answer : Type :=
| ABool (b : bool)
| ANone
| AData (d : DataFrame)
| ARaise (e : exn).

(** A program is a tree: a node is a call, its children continue with
    what the call returned.  There is no node that catches. *)
Inductive prog (A : Type) : Type :=
| Ret (a : A)
| SysExit (status : Z)
| PathExists (path : string) (k : bool -> prog A)
| Makedirs (path : string) (k : prog A)
| ProcessFastqPlain (path : string) (nthreads : Z) (k : DataFrame -> prog A)
| ProcessBam (path : string) (nthreads : Z) (k : DataFrame -> prog A)
| ProcessSummary (path : string) (rtype : string) (k : DataFrame -> prog A)
| WriteStats (datadf : option DataFrame) (output : string) (k : prog A).
Arguments Ret {A} a.
Arguments SysExit {A} status.
Arguments PathExists {A} path k.
Arguments Makedirs {A} path k.
Arguments ProcessFastqPlain {A} path nthreads k.
Arguments ProcessBam {A} path nthreads k.
Arguments ProcessSummary {A} path rtype k.
Arguments WriteStats {A} datadf output k.

Fixpoint bind {A B : Type} (p : prog A) (f : A -> prog B) : prog B :=
  match p with
  | Ret a => f a
  | SysExit n => SysExit n
  | PathExists path k => PathExists path (fun b => bind (k b) f)
  | Makedirs path k => Makedirs path (bind k f)
  | ProcessFastqPlain path n k => ProcessFastqPlain path n (fun d => bind (k d) f)
  | ProcessBam path n k => ProcessBam path n (fun d => bind (k d) f)
  | ProcessSummary path r k => ProcessSummary path r (fun d => bind (k d) f)
  | WriteStats d o k => WriteStats d o (bind k f)
  end.

Notation "x <- p ;; q" := (bind p (fun x => q))
  (at level 61, p at next level, right associativity).
Notation "p ;;; q" := (bind p (fun _ => q))
  (at level 61, right associativity).

(** The calls as one-node programs. *)
Definition exists_ (path : string) : prog bool := PathExists path Ret.
Definition makedirs (path : string) : prog unit := Makedirs path (Ret tt).
Definition fastq_plain (path : string) (n : Z) : prog (option DataFrame) :=
  ProcessFastqPlain path n (fun d => Ret (Some d)).
Definition bam_ (path : string) (n : Z) : prog (option DataFrame) :=
  ProcessBam path n (fun d => Ret (Some d)).
Definition summary_ (path : string) (r : string) : prog (option DataFrame) :=
  ProcessSummary path r (fun d => Ret (Some d)).
Definition write (d : option DataFrame) (o : string) : prog unit :=
  WriteStats d o (Ret tt).

(** ** The script *)

(** The string an attribute holds where the branch has tested it. *)
Definition str (x : option string) : string :=
  match x with
  | Some s => s
  | None => ""
  end.

(** [get_input]: the three tests in the order of the source; a call that
    falls through all of them returns [None]. *)
Definition get_input (args : Namespace) : prog (option DataFrame) :=
  if truthy (fastq args) then
    fastq_plain (str (fastq args)) (threads args)
  else if truthy (bam args) then
    bam_ (str (bam args)) (threads args)
  else if truthy (summary args) then
    summary_ (str (summary args)) (readtype args)
  else
    Ret None.

(** Lines 45 to 48 of [main]: where the report goes. *)
Definition output_of (args : Namespace) : string :=
  if truthy_str (name args) then name args
  else os_path_join (outdir args) (prefix args ++ "NanoStats.txt").

(** [parser.parse_args()] as a step of the program. *)
Definition parse_args (p : parsed) : prog Namespace :=
  match p with
  | Parsed args => Ret args
  | PrintedAndExit => SysExit 0
  | UsageError _ => SysExit 2
  end.

Variable int : string -> option Z.

Definition main (argv : list arg) : prog unit :=
  args <- parse_args (get_args int argv) ;;
  present <- exists_ (outdir args) ;;
  (if negb present then makedirs (outdir args) else Ret tt) ;;;
  datadf <- get_input args ;;
  let output := output_of args in
  write datadf output.

(** ** Running a program *)

Variable World : Type.

(** What is outside the script: the file system calls and the two
    libraries, each a function of its arguments and of the world. *)
Record Externals : Type := mkExternals {
  ext_exists : string -> World -> bool;
  ext_makedirs : string -> World -> (exn + unit) * World;
  ext_fastq : string -> Z -> World -> (exn + DataFrame) * World;
  ext_bam : string -> Z -> World -> (exn + DataFrame) * World;
  ext_summary : string -> string -> World -> (exn + DataFrame) * World;
  ext_write : option DataFrame -> string -> World -> (exn + unit) * World
}.

(** One line of the log of a run: the call and what came back. *)
Definition entry : Type := (call * answer)%type.

Record run_result (A : Type) : Type := mkResult {
  log : list entry;
  final : World;
  ending : outcome A
}.
Arguments mkResult {A} log final ending.
Arguments log {A} r.
Arguments final {A} r.
Arguments ending {A} r.

Definition logged {A : Type} (c : call) (a : answer) (r : run_result A)
    : run_result A :=
  mkResult ((c, a) :: log r) (final r) (ending r).

Definition failed {A : Type} (c : call) (e : exn) (w : World)
    : run_result A :=
  mkResult [(c, ARaise e)] w (Raised e).

Variable E : Externals.

Fixpoint run {A : Type} (p : prog A) (w : World) : run_result A :=
  match p with
  | Ret a => mkResult [] w (Returned a)
  | SysExit n => mkResult [] w (Exited n)
  | PathExists path k =>
      let b := ext_exists E path w in
      logged (os_path_exists path) (ABool b) (run (k b) w)
  | Makedirs path k =>
      match ext_makedirs E path w with
      | (inl e, w') => failed (os_makedirs path) e w'
      | (inr _, w') => logged (os_makedirs path) ANone (run k w')
      end
  | ProcessFastqPlain path n k =>
      match ext_fastq E path n w with
      | (inl e, w') => failed (process_fastq_plain path n) e w'
      | (inr d, w') => logged (process_fastq_plain path n) (AData d) (run (k d) w')
      end
  | ProcessBam path n k =>
      match ext_bam E path n w with
      | (inl e, w') => failed (process_bam path n) e w'
      | (inr d, w') => logged (process_bam path n) (AData d) (run (k d) w')
      end
  | ProcessSummary path r k =>
      match ext_summary E path r w with
      | (inl e, w') => failed (process_summary path r) e w'
      | (inr d, w') => logged (process_summary path r) (AData d) (run (k d) w')
      end
  | WriteStats d o k =>
      match ext_write E d o w with
      | (inl e, w') => failed (write_stats d o) e w'
      | (inr _, w') => logged (write_stats d o) ANone (run k w')
      end
  end.

End Script.

Arguments Ret {DataFrame A} a.
Arguments SysExit {DataFrame A} status.
Arguments PathExists {DataFrame A} path k.
Arguments Makedirs {DataFrame A} path k.
Arguments ProcessFastqPlain {DataFrame A} path nthreads k.
Arguments ProcessBam {DataFrame A} path nthreads k.
Arguments ProcessSummary {DataFrame A} path rtype k.
Arguments WriteStats {DataFrame A} datadf output k.
Arguments os_path_exists {DataFrame} path.
Arguments os_makedirs {DataFrame} path.
Arguments process_fastq_plain {DataFrame} path nthreads.
Arguments process_bam {DataFrame} path nthreads.
Arguments process_summary {DataFrame} path rtype.
Arguments write_stats {DataFrame} datadf output.
Arguments ABool {DataFrame} b.
Arguments ANone {DataFrame}.
Arguments AData {DataFrame} d.
Arguments ARaise {DataFrame} e.
Arguments bind {DataFrame A B} p f.
Arguments get_input {DataFrame} args.
Arguments main {DataFrame} int argv.
Arguments mkExternals {DataFrame World}.
Arguments ext_exists {DataFrame World} e.
Arguments ext_makedirs {DataFrame World} e.
Arguments ext_fastq {DataFrame World} e.
Arguments ext_bam {DataFrame World} e.
Arguments ext_summary {DataFrame World} e.
Arguments ext_write {DataFrame World} e.
Arguments mkResult {DataFrame World A} log final ending.
Arguments log {DataFrame World A} r.
Arguments final {DataFrame World A} r.
Arguments ending {DataFrame World A} r.
Arguments logged {DataFrame World A} c a r.
Arguments failed {DataFrame World A} c e w.
Arguments run {DataFrame World} E {A} p w.
Arguments exists_ {DataFrame} path.
Arguments makedirs {DataFrame} path.
Arguments fastq_plain {DataFrame} path n.
Arguments bam_ {DataFrame} path n.
Arguments summary_ {DataFrame} path r.
Arguments write {DataFrame} d o.
Arguments parse_args {DataFrame} p.

(** Lines 44 to 49 of [main], what is left to do once the output
    directory is there: load the dataset and write the report. *)
Definition load_and_report {DataFrame : Type} (args : Namespace)
    : prog DataFrame unit :=
  bind (get_input args) (fun datadf => write datadf (output_of args)).

(** ** What the statements below talk about *)

(** The command line names the data source [s]. *)
Definition names_source (s : source) (a : arg) : bool :=
  match a with
  | Given (Target s') _ | Bare (Target s') => source_eqb s s'
  | _ => false
  end.

Definition supplied (s : source) (argv : list arg) : bool :=
  existsb (names_source s) argv.

(** How many of the three data source options the command line has. *)
Definition n_supplied (argv : list arg) : nat :=
  length (filter (fun s => supplied s argv) [Fastq; Summary; Bam]).

Definition is_flag (a : arg) : bool :=
  match a with
  | VersionFlag | HelpFlag => true
  | _ => false
  end.

(** Neither the version nor the help option is on the command line. *)
Definition no_flags (argv : list arg) : bool :=
  negb (existsb is_flag argv).

(** An option whose argument [parse_args] turns down: a read type that
    is not among the choices, a thread count that [int] does not take. *)
Definition rejected (int : string -> option Z) (a : arg) : bool :=
  match a with
  | Given Readtype v => negb (in_choices v)
  | Given Threads v => match int v with Some _ => false | None => true end
  | _ => false
  end.

(** The attribute of the namespace that belongs to a data source. *)
Definition attr (s : source) (args : Namespace) : option string :=
  match s with
  | Fastq => fastq args
  | Summary => summary args
  | Bam => bam args
  end.

(** How many of the three attributes of the group hold a value. *)
Definition populated (args : Namespace) : nat :=
  length (filter (fun x : option string =>
                    match x with Some _ => true | None => false end)
                 [fastq args; summary args; bam args]).

Section Logs.

Context {DataFrame : Type}.

Definition is_makedirs (c : call DataFrame) : bool :=
  match c with
  | os_makedirs _ => true
  | _ => false
  end.

Definition is_loader (c : call DataFrame) : bool :=
  match c with
  | process_fastq_plain _ _ | process_bam _ _ | process_summary _ _ => true
  | _ => false
  end.

Definition is_write (c : call DataFrame) : bool :=
  match c with
  | write_stats _ _ => true
  | _ => false
  end.

(** The calls into [nanoget] and [nanomath]. *)
Definition is_library (c : call DataFrame) : bool :=
  is_loader c || is_write c.

Definition raised (a : answer DataFrame) : bool :=
  match a with
  | ARaise _ => true
  | _ => false
  end.

Definition calls (l : list (entry DataFrame)) : list (call DataFrame) :=
  map fst l.

Definition loader_calls (l : list (entry DataFrame)) : list (call DataFrame) :=
  filter is_loader (calls l).

Definition write_calls (l : list (entry DataFrame)) : list (call DataFrame) :=
  filter is_write (calls l).

(** The calls of a run that change the file system from the script
    itself, not from inside a library. *)
Definition mutations (l : list (entry DataFrame)) : list (call DataFrame) :=
  filter is_makedirs (calls l).

Definition library_log (l : list (entry DataFrame)) : list (entry DataFrame) :=
  filter (fun e => is_library (fst e)) l.

(** [os.makedirs] raised during the run. *)
Definition makedirs_raised (l : list (entry DataFrame)) : bool :=
  existsb (fun e => is_makedirs (fst e) && raised (snd e)) l.

Context {World : Type}.
Variable E : Externals DataFrame World.

(** What the documentation of [os.makedirs] promises when it returns:
    the leaf and every intermediate directory exist. *)
Definition MakedirsCreates : Prop :=
  forall path w w' u,
    ext_makedirs E path w = (inr u, w') ->
    ext_exists E path w' = true /\
    forall q, In q (ancestors path) -> ext_exists E q w' = true.

(** The libraries remove nothing: a path that exists before one of
    their calls exists after it. *)
Record KeepsPaths : Prop := mkKeepsPaths {
  keeps_fastq : forall q path n w,
    ext_exists E q w = true ->
    ext_exists E q (snd (ext_fastq E path n w)) = true;
  keeps_bam : forall q path n w,
    ext_exists E q w = true ->
    ext_exists E q (snd (ext_bam E path n w)) = true;
  keeps_summary : forall q path r w,
    ext_exists E q w = true ->
    ext_exists E q (snd (ext_summary E path r w)) = true;
  keeps_write : forall q d o w,
    ext_exists E q w = true ->
    ext_exists E q (snd (ext_write E d o w)) = true
}.

(** The loaders and the writer as deterministic functions.  What a
    loader returns is fixed by its arguments and by the file at its
    path; whether the writer returns, and the report it then leaves at
    its destination, are fixed by its arguments; making a directory
    changes no file. *)
Record Deterministic {Content : Type} (file_at : World -> string -> Content)
    : Prop := mkDeterministic {
  det_fastq : forall path n w w',
    file_at w path = file_at w' path ->
    fst (ext_fastq E path n w) = fst (ext_fastq E path n w');
  det_bam : forall path n w w',
    file_at w path = file_at w' path ->
    fst (ext_bam E path n w) = fst (ext_bam E path n w');
  det_summary : forall path r w w',
    file_at w path = file_at w' path ->
    fst (ext_summary E path r w) = fst (ext_summary E path r w');
  det_write_answer : forall d o w w',
    fst (ext_write E d o w) = fst (ext_write E d o w');
  det_write_report : forall d o w w' u u',
    fst (ext_write E d o w) = inr u ->
    fst (ext_write E d o w') = inr u' ->
    file_at (snd (ext_write E d o w)) o =
    file_at (snd (ext_write E d o w')) o;
  det_makedirs : forall dir path w,
    file_at (snd (ext_makedirs E dir w)) path = file_at w path
}.

End Logs.

(** ** A small world to run the script in *)

Module Toy.

(** Decimal digits with an optional minus sign, for [int]. *)
Definition digit (c : ascii) : option Z :=
  let n := nat_of_ascii c in
  if (48 <=? n)%nat && (n <=? 57)%nat then Some (Z.of_nat (n - 48)) else None.

Fixpoint digits (acc : Z) (s : string) : option Z :=
  match s with
  | EmptyString => Some acc
  | String c rest =>
      match digit c with
      | Some d => digits (10 * acc + d) rest
      | None => None
      end
  end.

Definition int (s : string) : option Z :=
  match s with
  | EmptyString => None
  | String "-" (String c rest) => option_map Z.opp (digits 0 (String c rest))
  | String _ _ => digits 0 s
  end.

(** A dataset is the list of read lengths. *)
Definition DataFrame : Type := list Z.

(** Directories by path, files by path with their text. *)
Record World : Type := mkWorld {
  dirs : list string;
  files : list (string * string)
}.

Definition lookup (path : string) (w : World) : option string :=
  option_map snd (find (fun f => String.eqb path (fst f)) (files w)).

Definition exists_ (path : string) (w : World) : bool :=
  existsb (String.eqb path) (dirs w) ||
  match lookup path w with Some _ => true | None => false end.

Definition makedirs (path : string) (w : World) : (exn + unit) * World :=
  if exists_ path w then (inl (FileExistsError path), w)
  else (inr tt, mkWorld (path :: ancestors path ++ dirs w) (files w)).

(** A loader returns one read per line of the file, as long as the
    line. *)
Fixpoint line_lengths (n : Z) (s : string) : list Z :=
  match s with
  | EmptyString => if (n =? 0)%Z then [] else [n]
  | String c rest =>
      if Ascii.eqb c "010"%char then n :: line_lengths 0 rest
      else line_lengths (n + 1) rest
  end.

Definition load (path : string) (w : World) : (exn + DataFrame) * World :=
  match lookup path w with
  | Some text => (inr (line_lengths 0 text), w)
  | None => (inl (mkExn "FileNotFoundError" path), w)
  end.

(** The report: one letter per read. *)
Definition render (d : DataFrame) : string :=
  fold_right (fun _ s => String "r" s) "" d.

Definition write (d : option DataFrame) (o : string) (w : World)
    : (exn + unit) * World :=
  match d with
  | Some d => (inr tt, mkWorld (dirs w) ((o, render d) :: files w))
  | None => (inl (mkExn "TypeError" "NoneType"), w)
  end.

Definition E : Externals DataFrame World :=
  mkExternals exists_ makedirs
    (fun path _ => load path) (fun path _ => load path)
    (fun path _ => load path) write.

(** A directory with one FASTQ file of two reads. *)
Definition w0 : World :=
  mkWorld ["."] [("reads.fastq", "ACGT
AC")].

End Toy.

(** ** A world with a directory tree *)

(** Directories as the operating system sees them: a path is looked up
    component by component, ".." steps back and needs the directory it
    steps back from, and [os.makedirs] is the function of [os.py],
    which makes the head of the path first and then calls [mkdir] on
    the whole of it. *)
Module Posix.

Definition FileNotFoundError (path : string) : exn :=
  mkExn "FileNotFoundError" path.

Fixpoint take_while (f : ascii -> bool) (l : list ascii) : list ascii :=
  match l with
  | [] => []
  | c :: rest => if f c then c :: take_while f rest else []
  end.

(** [os.path.basename(p)]: what stands after the last separator. *)
Definition basename (p : string) : string :=
  string_of_list_ascii
    (rev (take_while (fun c => negb (is_sep c)) (rev (list_ascii_of_string p)))).

(** [os.path.split(p)]. *)
Definition split (p : string) : string * string := (dirname p, basename p).

(** The components of a path, the empty ones between two separators
    included. *)
Fixpoint components_from (cur : string) (s : string) : list string :=
  match s with
  | EmptyString => [cur]
  | String c rest =>
      if is_sep c then cur :: components_from "" rest
      else components_from (cur ++ String c "") rest
  end.

Definition components (p : string) : list string := components_from "" p.

Fixpoint path_eqb (a b : list string) : bool :=
  match a, b with
  | [], [] => true
  | x :: a', y :: b' => String.eqb x y && path_eqb a' b'
  | _, _ => false
  end.

(** A directory is named by its components from the root. *)
Record World : Type := mkWorld {
  dirs : list (list string);
  cwd : list string;
  files : list (string * string)
}.

Definition is_dir (w : World) (p : list string) : bool :=
  match p with
  | [] => true
  | _ :: _ => existsb (path_eqb p) (dirs w)
  end.

(** Path lookup from the directory [cur]. *)
Fixpoint walk (w : World) (cur : list string) (comps : list string)
    : option (list string) :=
  match comps with
  | [] => Some cur
  | c :: rest =>
      if String.eqb c "" || String.eqb c "." then walk w cur rest
      else if String.eqb c ".." then walk w (removelast cur) rest
      else if is_dir w (cur ++ [c])%list then walk w (cur ++ [c])%list rest
      else None
  end.

Definition start (w : World) (p : string) : list string :=
  if startswith_sep p then [] else cwd w.

Definition lookup (path : string) (w : World) : option string :=
  option_map snd (find (fun f => String.eqb path (fst f)) (files w)).

Definition is_file (path : string) (w : World) : bool :=
  match lookup path w with Some _ => true | None => false end.

(** [os.path.exists]: the empty path does not exist. *)
Definition exists_ (path : string) (w : World) : bool :=
  if String.eqb path "" then false
  else match walk w (start w path) (components path) with
       | Some _ => true
       | None => is_file path w
       end.

Fixpoint drop_empty (l : list string) : list string :=
  match l with
  | s :: rest => if String.eqb s "" then drop_empty rest else l
  | [] => []
  end.

(** [os.mkdir]: the directory above has to be there, the last component
    must be a new name in it. *)
Definition mkdir (path : string) (w : World) : (exn + unit) * World :=
  if String.eqb path "" then (inl (FileNotFoundError path), w)
  else
    match drop_empty (rev (components path)) with
    | [] => (inl (FileExistsError path), w)
    | last :: above =>
        match walk w (start w path) (rev above) with
        | None => (inl (FileNotFoundError path), w)
        | Some parent =>
            if String.eqb last "." || String.eqb last ".."
               || is_dir w (parent ++ [last])%list || is_file path w
            then (inl (FileExistsError path), w)
            else (inr tt, mkWorld ((parent ++ [last])%list :: dirs w) (cwd w) (files w))
        end
    end.

(** [os.makedirs(name)], with [exist_ok] left at [False]. *)
Fixpoint makedirs_upto (fuel : nat) (name : string) (w : World)
    : (exn + unit) * World :=
  match fuel with
  | O => (inl (mkExn "RecursionError" name), w)
  | S fuel' =>
      let (head0, tail0) := split name in
      let (head, tail) :=
        if String.eqb tail0 "" then split head0 else (head0, tail0) in
      if negb (String.eqb head "") && negb (String.eqb tail "")
         && negb (exists_ head w)
      then
        let (made, w1) := makedirs_upto fuel' head w in
        match made with
        | inl e =>
            if String.eqb (exn_class e) "FileExistsError" then
              if String.eqb tail "." then (inr tt, w1) else mkdir name w1
            else (inl e, w1)
        | inr _ =>
            if String.eqb tail "." then (inr tt, w1) else mkdir name w1
        end
      else mkdir name w
  end.

Definition makedirs (name : string) (w : World) : (exn + unit) * World :=
  makedirs_upto (S (String.length name)) name w.

(** The libraries are those of [Toy]: files by the name they are opened
    with. *)
Definition load (path : string) (w : World) : (exn + Toy.DataFrame) * World :=
  match lookup path w with
  | Some text => (inr (Toy.line_lengths 0 text), w)
  | None => (inl (FileNotFoundError path), w)
  end.

Definition write (d : option Toy.DataFrame) (o : string) (w : World)
    : (exn + unit) * World :=
  match d with
  | Some d => (inr tt, mkWorld (dirs w) (cwd w) ((o, Toy.render d) :: files w))
  | None => (inl (mkExn "TypeError" "NoneType"), w)
  end.

Definition E : Externals Toy.DataFrame World :=
  mkExternals exists_ makedirs
    (fun path _ => load path) (fun path _ => load path)
    (fun path _ => load path) write.

(** A home directory with one FASTQ file of two reads. *)
Definition w0 : World :=
  mkWorld [["home"]; ["home"; "user"]] ["home"; "user"]
          [("reads.fastq", "ACGT
AC")].

(** The command line whose output directory steps back out of a
    directory that is not there yet, run twice in a row. *)
Definition stepping_back : list arg :=
  [Given (Target Fastq) "reads.fastq"; Given Outdir "newdir/.."].

Definition first_run : run_result Toy.DataFrame World unit :=
  run E (main Toy.int stepping_back) w0.

Definition second_run : run_result Toy.DataFrame World unit :=
  run E (main Toy.int stepping_back) (final first_run).

End Posix.

(** * Properties *)

(** ** Truth values and paths *)

Lemma truthy_str_true (s : string) : truthy_str s = true <-> s <> "".
Proof. destruct s; simpl; split; congruence. Qed.

Lemma truthy_str_false (s : string) : truthy_str s = false <-> s = "".
Proof. destruct s; simpl; split; congruence. Qed.

Lemma truthy_Some (x : option string) :
  truthy x = true <-> exists s, x = Some s /\ s <> "".
Proof.
  destruct x as [s|]; simpl.
  - rewrite truthy_str_true. split.
    + intros H. exists s. split; [reflexivity | exact H].
    + intros (s' & Hs & H). injection Hs as ->. exact H.
  - split; [discriminate | intros (s & Hs & _); discriminate].
Qed.

Lemma append_assoc (a b c : string) : (a ++ b) ++ c = a ++ b ++ c.
Proof. induction a as [|x a IH]; simpl; [reflexivity | now rewrite IH]. Qed.

(** Whatever [os.path.join] does with the directory, its second
    argument is the end of the result, unchanged. *)
Lemma os_path_join_suffix (a b : string) :
  exists dir, os_path_join a b = dir ++ b.
Proof.
  unfold os_path_join.
  destruct (startswith_sep b).
  - exists "". reflexivity.
  - destruct (negb (truthy_str a) || endswith_sep a).
    + exists a. reflexivity.
    + exists (a ++ sep). now rewrite append_assoc.
Qed.

Example os_path_join_examples :
  os_path_join "." "NanoStats.txt" = "./NanoStats.txt" /\
  os_path_join "out/" "NanoStats.txt" = "out/NanoStats.txt" /\
  os_path_join "" "NanoStats.txt" = "NanoStats.txt" /\
  os_path_join "out" "/tmp/x_NanoStats.txt" = "/tmp/x_NanoStats.txt".
Proof. repeat split. Qed.

Example dirname_examples :
  map dirname ["out/run1/stats"; "/data/out"; "/data"; "out"; "out/run1/"]
  = ["out/run1"; "/data"; "/"; ""; "out/run1"] /\
  ancestors "out/run1/stats" = ["out/run1"; "out"] /\
  ancestors "/data/out" = ["/data"; "/"].
Proof. repeat split. Qed.

Lemma source_eqb_eq (a b : source) : source_eqb a b = true <-> a = b.
Proof. destruct a, b; simpl; split; congruence. Qed.

Lemma source_eqb_refl (a : source) : source_eqb a a = true.
Proof. now destruct a. Qed.

(** ** The parser *)

Section Parsing.

Variable int : string -> option Z.

Lemma no_flags_cons (a : arg) (argv : list arg) :
  no_flags (a :: argv) = true -> is_flag a = false /\ no_flags argv = true.
Proof.
  unfold no_flags. simpl. destruct (is_flag a); simpl; intros H.
  - discriminate.
  - split; [reflexivity | exact H].
Qed.

Lemma no_flags_app (pre post : list arg) :
  no_flags (pre ++ post) = true ->
  no_flags pre = true /\ no_flags post = true.
Proof.
  unfold no_flags. rewrite existsb_app.
  destruct (existsb is_flag pre), (existsb is_flag post); simpl; intuition.
Qed.

Lemma supplied_cons (s : source) (a : arg) (argv : list arg) :
  supplied s (a :: argv) = names_source s a || supplied s argv.
Proof. reflexivity. Qed.

(** [seen_other] finds nothing exactly when every source seen so far is
    the one being stored. *)
Lemma seen_other_None (s : source) (seen : list source) :
  seen_other s seen = None <-> forall s', In s' seen -> s' = s.
Proof.
  unfold seen_other. split.
  - intros H s' Hin.
    pose proof (find_none _ _ H s' Hin) as Hf.
    apply negb_false_iff, source_eqb_eq in Hf. congruence.
  - intros H. induction seen as [|x seen IH]; simpl; [reflexivity|].
    rewrite (H x (or_introl eq_refl)), source_eqb_refl. simpl.
    apply IH. intros s' Hs'. apply H. now right.
Qed.

(** A command line without any data source option ends in a usage
    error: at the latest when the required group is checked. *)
Lemma consume_no_source (argv : list arg) :
  no_flags argv = true ->
  (forall s, supplied s argv = false) ->
  forall extras ns, exists e, consume int argv [] extras ns = UsageError e.
Proof.
  induction argv as [|a argv IH]; intros Hf Hs extras ns.
  - simpl. eexists. reflexivity.
  - apply no_flags_cons in Hf. destruct Hf as [Ha Hf].
    assert (Hrest : forall s, supplied s argv = false).
    { intros s. specialize (Hs s). rewrite supplied_cons in Hs.
      now apply orb_false_iff in Hs. }
    destruct a as [o v|o| | |u]; simpl in Ha; try discriminate; simpl.
    + destruct o as [| | | | |s]; simpl.
      * apply IH; assumption.
      * apply IH; assumption.
      * apply IH; assumption.
      * destruct (int v); [apply IH; assumption | eexists; reflexivity].
      * destruct (in_choices v); [apply IH; assumption | eexists; reflexivity].
      * specialize (Hs s). rewrite supplied_cons in Hs. simpl in Hs.
        rewrite source_eqb_refl in Hs. discriminate.
    + eexists. reflexivity.
    + apply IH; assumption.
Qed.

(** Two different data sources, seen already or still to come, end in
    a usage error: at the latest where the second one is stored. *)
Lemma consume_two_sources (argv : list arg) :
  no_flags argv = true ->
  forall seen extras ns,
  (forall a b, In a seen -> In b seen -> a = b) ->
  (exists s1 s2, s1 <> s2 /\
     (In s1 seen \/ supplied s1 argv = true) /\
     (In s2 seen \/ supplied s2 argv = true)) ->
  exists e, consume int argv seen extras ns = UsageError e.
Proof.
  induction argv as [|a argv IH]; intros Hf seen extras ns Hu (s1 & s2 & Hne & H1 & H2).
  - destruct H1 as [H1|H1]; [|discriminate].
    destruct H2 as [H2|H2]; [|discriminate].
    elim Hne. now apply Hu.
  - apply no_flags_cons in Hf. destruct Hf as [Ha Hf].
    rewrite supplied_cons in H1, H2.
    destruct a as [o v|o| | |u]; simpl in Ha; try discriminate.
    + destruct o as [| | | | |s]; simpl in *.
      * apply IH; try assumption. now exists s1, s2.
      * apply IH; try assumption. now exists s1, s2.
      * apply IH; try assumption. now exists s1, s2.
      * destruct (int v); [|eexists; reflexivity].
        apply IH; try assumption. now exists s1, s2.
      * destruct (in_choices v); [|eexists; reflexivity].
        apply IH; try assumption. now exists s1, s2.
      * destruct (seen_other s seen) eqn:Hso; [eexists; reflexivity|].
        rewrite seen_other_None in Hso.
        apply IH; try assumption.
        -- intros a b [<-|Hina] [<-|Hinb]; try reflexivity.
           ++ symmetry. now apply Hso.
           ++ now apply Hso.
           ++ now apply Hu.
        -- exists s1, s2. split; [assumption|]. split.
           ++ destruct H1 as [H1|H1]; [left; now right|].
              destruct (source_eqb s1 s) eqn:Hs1; simpl in H1.
              ** left. left. apply source_eqb_eq in Hs1. congruence.
              ** now right.
           ++ destruct H2 as [H2|H2]; [left; now right|].
              destruct (source_eqb s2 s) eqn:Hs2; simpl in H2.
              ** left. left. apply source_eqb_eq in Hs2. congruence.
              ** now right.
    + eexists. reflexivity.
    + simpl in *. apply IH; try assumption. now exists s1, s2.
Qed.

(** Not exactly one data source means none, or two different ones. *)
Lemma n_supplied_not_one (argv : list arg) :
  n_supplied argv <> 1%nat ->
  (forall s, supplied s argv = false) \/
  (exists s1 s2, s1 <> s2 /\ supplied s1 argv = true /\ supplied s2 argv = true).
Proof.
  unfold n_supplied. simpl.
  destruct (supplied Fastq argv) eqn:Hf, (supplied Summary argv) eqn:Hs,
           (supplied Bam argv) eqn:Hb; simpl; intros H;
    try (elim H; reflexivity).
  - right. exists Fastq, Summary. repeat split; [discriminate|assumption|assumption].
  - right. exists Fastq, Summary. repeat split; [discriminate|assumption|assumption].
  - right. exists Fastq, Bam. repeat split; [discriminate|assumption|assumption].
  - right. exists Summary, Bam. repeat split; [discriminate|assumption|assumption].
  - left. intros []; assumption.
Qed.

Lemma get_args_not_one (argv : list arg) :
  no_flags argv = true -> n_supplied argv <> 1%nat ->
  exists e, get_args int argv = UsageError e.
Proof.
  intros Hf Hn. unfold get_args.
  destruct (n_supplied_not_one argv Hn) as [Hnone | (s1 & s2 & Hne & H1 & H2)].
  - now apply consume_no_source.
  - apply consume_two_sources; [assumption | intros a b [] | ].
    exists s1, s2. auto.
Qed.

(** An argument that is turned down ends the parse where it stands,
    unless the parse has ended before. *)
Lemma consume_rejected (pre : list arg) (bad : arg) (post : list arg) :
  no_flags pre = true -> rejected int bad = true ->
  forall seen extras ns,
  exists e, consume int (pre ++ bad :: post) seen extras ns = UsageError e.
Proof.
  intros Hf Hbad. induction pre as [|a pre IH]; intros seen extras ns.
  - simpl. destruct bad as [o v|o| | |u]; simpl in Hbad; try discriminate.
    destruct o as [| | | | |s]; simpl in *; try discriminate.
    + destruct (int v); [discriminate | eexists; reflexivity].
    + destruct (in_choices v); [discriminate | eexists; reflexivity].
  - apply no_flags_cons in Hf. destruct Hf as [Ha Hf]. specialize (IH Hf).
    destruct a as [o v|o| | |u]; simpl in Ha; try discriminate; simpl.
    + destruct (store int o v seen ns) as [e|[ns' seen']];
        [eexists; reflexivity | apply IH].
    + eexists. reflexivity.
    + apply IH.
Qed.

Lemma consume_parsed_no_flags (argv : list arg) :
  forall seen extras ns args,
  consume int argv seen extras ns = Parsed args -> no_flags argv = true.
Proof.
  induction argv as [|a argv IH]; intros seen extras ns args H;
    [reflexivity|].
  destruct a as [o v|o| | |u]; simpl in H; try discriminate.
  - destruct (store int o v seen ns) as [e|[ns' seen']]; [discriminate|].
    apply IH in H. exact H.
  - apply IH in H. exact H.
Qed.

Lemma attr_store (o : option_name) (v : string) (seen seen' : list source)
    (ns ns' : Namespace) :
  store int o v seen ns = inr (ns', seen') ->
  match o with
  | Target s =>
      seen' = s :: seen /\ (forall s', In s' seen -> s' = s) /\
      attr s ns' = Some v /\ forall s', s' <> s -> attr s' ns' = attr s' ns
  | _ => seen' = seen /\ forall s', attr s' ns' = attr s' ns
  end.
Proof.
  destruct o as [| | | | |s]; simpl; intros H.
  - injection H as <- <-. split; [reflexivity | now intros []].
  - injection H as <- <-. split; [reflexivity | now intros []].
  - injection H as <- <-. split; [reflexivity | now intros []].
  - destruct (int v); [|discriminate].
    injection H as <- <-. split; [reflexivity | now intros []].
  - destruct (in_choices v); [|discriminate].
    injection H as <- <-. split; [reflexivity | now intros []].
  - destruct (seen_other s seen) eqn:Hso; [discriminate|].
    rewrite seen_other_None in Hso.
    injection H as <- <-. repeat split; try assumption.
    + now destruct s.
    + intros s' Hne. destruct s, s'; try reflexivity; now elim Hne.
Qed.

(** When the parse succeeds, one attribute of the group holds a value
    and the other two are [None]. *)
Lemma consume_one_attr (argv : list arg) :
  forall seen extras ns args,
  (forall a b, In a seen -> In b seen -> a = b) ->
  (forall s, attr s ns <> None <-> In s seen) ->
  consume int argv seen extras ns = Parsed args ->
  exists s0, attr s0 args <> None /\ forall s, s <> s0 -> attr s args = None.
Proof.
  induction argv as [|a argv IH]; intros seen extras ns args Hu Ht H.
  - simpl in H. destruct seen as [|s0 seen]; [discriminate|].
    destruct extras; [|discriminate]. injection H as <-.
    exists s0. split.
    + apply Ht. now left.
    + intros s Hne. destruct (attr s ns) eqn:Hs; [|reflexivity].
      elim Hne. apply Hu; [|now left]. apply Ht. congruence.
  - destruct a as [o v|o| | |u]; simpl in H; try discriminate.
    + destruct (store int o v seen ns) as [e|[ns' seen']] eqn:Hst;
        [discriminate|].
      apply attr_store in Hst.
      destruct o as [| | | | |s];
        try (destruct Hst as [-> Hattr];
             apply (IH seen extras ns' args); try assumption;
             intros s; rewrite Hattr; apply Ht).
      destruct Hst as (-> & Hall & Hset & Hother).
      apply (IH (s :: seen) extras ns' args); try assumption.
      * intros a b [<-|Ha] [<-|Hb]; try reflexivity.
        -- symmetry. now apply Hall.
        -- now apply Hall.
        -- now apply Hu.
      * intros s'. destruct (source_eqb s' s) eqn:Hs'.
        -- apply source_eqb_eq in Hs'. subst s'. rewrite Hset.
           split; [now left | discriminate].
        -- assert (Hne : s' <> s).
           { intros ->. rewrite source_eqb_refl in Hs'. discriminate. }
           rewrite (Hother s' Hne), Ht. split; [now right|].
           intros [->|Hin]; [now elim Hne | assumption].
    + apply (IH seen (u :: extras) ns args); assumption.
Qed.

Lemma get_args_populated (argv : list arg) (args : Namespace) :
  get_args int argv = Parsed args -> populated args = 1%nat.
Proof.
  intros H. unfold get_args in H.
  apply consume_one_attr in H.
  - destruct H as (s0 & Hs0 & Hrest). unfold populated.
    destruct s0; simpl in Hs0.
    + pose proof (Hrest Summary) as Hs. pose proof (Hrest Bam) as Hb.
      simpl in Hs, Hb. rewrite Hs, Hb by discriminate.
      destruct (fastq args); [reflexivity | now elim Hs0].
    + pose proof (Hrest Fastq) as Hf. pose proof (Hrest Bam) as Hb.
      simpl in Hf, Hb. rewrite Hf, Hb by discriminate.
      destruct (summary args); [reflexivity | now elim Hs0].
    + pose proof (Hrest Fastq) as Hf. pose proof (Hrest Summary) as Hs.
      simpl in Hf, Hs. rewrite Hf, Hs by discriminate.
      destruct (bam args); [reflexivity | now elim Hs0].
  - intros a b [].
  - intros []; simpl; split; intros H'; try contradiction; now elim H'.
Qed.

End Parsing.

(** ** Runs *)

Section Running.

Context {DataFrame World : Type}.
Variable int : string -> option Z.
Variable E : Externals DataFrame World.

Lemma main_usage_error (argv : list arg) (e : usage_error) (w : World) :
  get_args int argv = UsageError e ->
  run E (main int argv) w = mkResult [] w (Exited 2).
Proof. intros H. unfold main. rewrite H. reflexivity. Qed.

Lemma main_printed (argv : list arg) (w : World) :
  get_args int argv = PrintedAndExit ->
  run E (main int argv) w = mkResult [] w (Exited 0).
Proof. intros H. unfold main. rewrite H. reflexivity. Qed.

(** The run of [main] after a successful parse: the test of line 42,
    the creation of line 43 when the test fails, then the rest. *)
Lemma run_main_parsed (argv : list arg) (args : Namespace) (w : World) :
  get_args int argv = Parsed args ->
  run E (main int argv) w =
  if ext_exists E (outdir args) w then
    logged (os_path_exists (outdir args)) (ABool true)
           (run E (load_and_report args) w)
  else
    logged (os_path_exists (outdir args)) (ABool false)
      match ext_makedirs E (outdir args) w with
      | (inl e, w') => failed (os_makedirs (outdir args)) e w'
      | (inr _, w') =>
          logged (os_makedirs (outdir args)) ANone
                 (run E (load_and_report args) w')
      end.
Proof.
  intros H. unfold main. rewrite H. simpl.
  destruct (ext_exists E (outdir args) w); simpl; [reflexivity|].
  destruct (ext_makedirs E (outdir args) w) as [[e|u] w']; reflexivity.
Qed.

(** The program tree has no node that catches, so the call that raises
    is the last line of the log and its exception is how the run ends. *)
Lemma run_raise_last {A : Type} (p : prog DataFrame A) :
  forall w c e,
  In (c, ARaise e) (log (run E p w)) ->
  ending (run E p w) = Raised e /\
  exists l, log (run E p w) = (l ++ [(c, ARaise e)])%list.
Proof.
  induction p as [a|n|path k IH|path k IH|path n k IH|path n k IH
                  |path r k IH|d o k IH]; intros w c e Hin; simpl in *.
  - contradiction.
  - contradiction.
  - destruct Hin as [Heq|Hin]; [discriminate|].
    destruct (IH _ _ _ _ Hin) as [He (l & Hl)].
    split; [assumption|]. exists ((os_path_exists path, ABool (ext_exists E path w)) :: l).
    simpl. now rewrite Hl.
  - destruct (ext_makedirs E path w) as [[e0|u] w']; simpl in *.
    + destruct Hin as [Heq|[]]. injection Heq as <- <-.
      split; [reflexivity | now exists []].
    + destruct Hin as [Heq|Hin]; [discriminate|].
      destruct (IH _ _ _ Hin) as [He (l & Hl)].
      split; [assumption|]. exists ((os_makedirs path, ANone) :: l).
      simpl. now rewrite Hl.
  - destruct (ext_fastq E path n w) as [[e0|d] w']; simpl in *.
    + destruct Hin as [Heq|[]]. injection Heq as <- <-.
      split; [reflexivity | now exists []].
    + destruct Hin as [Heq|Hin]; [discriminate|].
      destruct (IH _ _ _ _ Hin) as [He (l & Hl)].
      split; [assumption|]. exists ((process_fastq_plain path n, AData d) :: l).
      simpl. now rewrite Hl.
  - destruct (ext_bam E path n w) as [[e0|d] w']; simpl in *.
    + destruct Hin as [Heq|[]]. injection Heq as <- <-.
      split; [reflexivity | now exists []].
    + destruct Hin as [Heq|Hin]; [discriminate|].
      destruct (IH _ _ _ _ Hin) as [He (l & Hl)].
      split; [assumption|]. exists ((process_bam path n, AData d) :: l).
      simpl. now rewrite Hl.
  - destruct (ext_summary E path r w) as [[e0|d] w']; simpl in *.
    + destruct Hin as [Heq|[]]. injection Heq as <- <-.
      split; [reflexivity | now exists []].
    + destruct Hin as [Heq|Hin]; [discriminate|].
      destruct (IH _ _ _ _ Hin) as [He (l & Hl)].
      split; [assumption|]. exists ((process_summary path r, AData d) :: l).
      simpl. now rewrite Hl.
  - destruct (ext_write E d o w) as [[e0|u] w']; simpl in *.
    + destruct Hin as [Heq|[]]. injection Heq as <- <-.
      split; [reflexivity | now exists []].
    + destruct Hin as [Heq|Hin]; [discriminate|].
      destruct (IH _ _ _ Hin) as [He (l & Hl)].
      split; [assumption|]. exists ((write_stats d o, ANone) :: l).
      simpl. now rewrite Hl.
Qed.

(** Case analysis on a run of [load_and_report]: which branch of
    [get_input] is taken, and what the loader and the writer answer. *)
Ltac branches :=
  unfold load_and_report, get_input;
  repeat match goal with
         | |- context [truthy ?x] => destruct (truthy x) eqn:?
         end;
  simpl;
  repeat match goal with
         | |- context [ext_fastq ?e ?p ?n ?w] =>
             destruct (ext_fastq e p n w) as [[?|?] ?] eqn:?; simpl
         | |- context [ext_bam ?e ?p ?n ?w] =>
             destruct (ext_bam e p n w) as [[?|?] ?] eqn:?; simpl
         | |- context [ext_summary ?e ?p ?r ?w] =>
             destruct (ext_summary e p r w) as [[?|?] ?] eqn:?; simpl
         | |- context [ext_write ?e ?d ?o ?w] =>
             destruct (ext_write e d o w) as [[?|?] ?] eqn:?; simpl
         end.

(** Loading and reporting makes no directory. *)
Lemma load_and_report_mutations (args : Namespace) (w : World) :
  mutations (log (run E (load_and_report args) w)) = [] /\
  makedirs_raised (log (run E (load_and_report args) w)) = false.
Proof. branches; split; reflexivity. Qed.

(** Every report of a run goes to [output_of], and a run that returns
    has written one. *)
Lemma load_and_report_writes (args : Namespace) (w : World) :
  let r := run E (load_and_report args) w in
  (forall d o, In (write_stats d o) (calls (log r)) -> o = output_of args) /\
  (ending r = Returned tt ->
   exists d, write_calls (log r) = [write_stats d (output_of args)]).
Proof.
  branches; split;
    try (intros d' o' Hin; simpl in Hin;
         repeat destruct Hin as [Hin|Hin]; try discriminate;
         try contradiction; now injection Hin as _ <-);
    try discriminate; intros _; eexists; reflexivity.
Qed.

(** A write is the last thing a run does: when any other call raises,
    no report has been asked for. *)
Lemma load_and_report_raise (args : Namespace) (w : World) :
  forall c e,
  In (c, ARaise e) (log (run E (load_and_report args) w)) ->
  is_write c = false ->
  write_calls (log (run E (load_and_report args) w)) = [].
Proof.
  branches; intros c' e' Hin Hc; simpl in Hin;
    repeat destruct Hin as [Hin|Hin]; try discriminate; try contradiction;
    try reflexivity;
    injection Hin as <- _; discriminate.
Qed.

(** What [get_input] does for the source that was given, when its path
    is not the empty string: one loader, with the path and the
    parameter that belongs to that loader. *)
Lemma get_input_parsed (argv : list arg) (args : Namespace) :
  get_args int argv = Parsed args ->
  forall s p, attr s args = Some p -> p <> "" ->
  get_input (DataFrame := DataFrame) args =
  match s with
  | Fastq => fastq_plain p (threads args)
  | Bam => bam_ p (threads args)
  | Summary => summary_ p (readtype args)
  end.
Proof.
  intros H s p Hs Hp. apply get_args_populated in H.
  apply truthy_str_true in Hp.
  unfold populated in H. unfold get_input.
  destruct s; simpl in Hs; rewrite Hs in *; simpl; rewrite Hp.
  - reflexivity.
  - destruct (fastq args), (bam args); simpl in H; try discriminate.
    reflexivity.
  - destruct (fastq args), (summary args); simpl in H; try discriminate.
    reflexivity.
Qed.

(** The same facts for the whole of [main]. *)
Lemma main_writes (argv : list arg) (args : Namespace) (w : World) :
  get_args int argv = Parsed args ->
  let r := run E (main int argv) w in
  (forall d o, In (write_stats d o) (calls (log r)) -> o = output_of args) /\
  (ending r = Returned tt ->
   exists d, write_calls (log r) = [write_stats d (output_of args)]).
Proof.
  intros H. rewrite (run_main_parsed _ _ w H).
  destruct (ext_exists E (outdir args) w).
  - destruct (load_and_report_writes args w) as [Hw Hr]. split.
    + intros d o [Hin|Hin]; [discriminate | now apply (Hw d)].
    + exact Hr.
  - destruct (ext_makedirs E (outdir args) w) as [[e|u] w'].
    + split; [|discriminate].
      intros d o [Hin|[Hin|[]]]; discriminate.
    + destruct (load_and_report_writes args w') as [Hw Hr]. split.
      * intros d o [Hin|[Hin|Hin]]; try discriminate. now apply (Hw d).
      * exact Hr.
Qed.

(** The log of [main] after a successful parse, around line 43. *)
Lemma main_mutations (argv : list arg) (args : Namespace) (w : World) :
  get_args int argv = Parsed args ->
  let r := run E (main int argv) w in
  (ext_exists E (outdir args) w = true ->
   mutations (log r) = [] /\ makedirs_raised (log r) = false) /\
  (ext_exists E (outdir args) w = false ->
   exists a rest,
     log r = (os_path_exists (outdir args), ABool false)
             :: (os_makedirs (outdir args), a) :: rest /\
     mutations rest = [] /\
     (raised a = true -> rest = [])).
Proof.
  intros H. rewrite (run_main_parsed _ _ w H).
  destruct (ext_exists E (outdir args) w); split; try discriminate; intros _.
  - apply load_and_report_mutations.
  - destruct (ext_makedirs E (outdir args) w) as [[e|u] w'].
    + exists (ARaise e), []. repeat split.
    + exists ANone, (log (run E (load_and_report args) w')).
      split; [reflexivity|]. split; [|discriminate].
      apply load_and_report_mutations.
Qed.

Section Determinism.

Context {Content : Type}.
Variable file_at : World -> string -> Content.
Hypothesis D : Deterministic E file_at.

Lemma write_det (d : option DataFrame) (o : string) (wa wb : World) :
  let ra := run E (write d o) wa in
  let rb := run E (write d o) wb in
  ending ra = ending rb /\
  library_log (log ra) = library_log (log rb) /\
  (ending ra = Returned tt -> file_at (final ra) o = file_at (final rb) o).
Proof.
  simpl.
  pose proof (det_write_answer E _ D d o wa wb) as Ha.
  pose proof (det_write_report E _ D d o wa wb) as Hr.
  destruct (ext_write E d o wa) as [[ea|ua] wa'],
           (ext_write E d o wb) as [[eb|ub] wb']; simpl in *;
    try discriminate.
  - injection Ha as <-. repeat split. discriminate.
  - repeat split. intros _. now apply (Hr ua ub).
Qed.

Lemma load_and_report_det (args : Namespace) (wa wb : World) :
  (forall s p, attr s args = Some p -> file_at wa p = file_at wb p) ->
  let ra := run E (load_and_report args) wa in
  let rb := run E (load_and_report args) wb in
  ending ra = ending rb /\
  library_log (log ra) = library_log (log rb) /\
  (ending ra = Returned tt ->
   file_at (final ra) (output_of args) = file_at (final rb) (output_of args)).
Proof.
  intros Hi. unfold load_and_report, get_input.
  destruct (truthy (fastq args)) eqn:Hf; [|destruct (truthy (bam args)) eqn:Hb;
    [|destruct (truthy (summary args)) eqn:Hs]]; simpl.
  - apply truthy_Some in Hf. destruct Hf as (p & Hp & _).
    specialize (Hi Fastq p Hp). rewrite Hp. simpl.
    pose proof (det_fastq E _ D p (threads args) _ _ Hi) as Hl.
    destruct (ext_fastq E p (threads args) wa) as [[ea|da] wa'],
             (ext_fastq E p (threads args) wb) as [[eb|db] wb'];
      simpl in *; try discriminate.
    + injection Hl as <-. repeat split. discriminate.
    + injection Hl as <-.
      destruct (write_det (Some da) (output_of args) wa' wb') as (He & Hl & Hr).
      simpl in He, Hl, Hr. repeat split; [exact He | now rewrite Hl | exact Hr].
  - apply truthy_Some in Hb. destruct Hb as (p & Hp & _).
    specialize (Hi Bam p Hp). rewrite Hp. simpl.
    pose proof (det_bam E _ D p (threads args) _ _ Hi) as Hl.
    destruct (ext_bam E p (threads args) wa) as [[ea|da] wa'],
             (ext_bam E p (threads args) wb) as [[eb|db] wb'];
      simpl in *; try discriminate.
    + injection Hl as <-. repeat split. discriminate.
    + injection Hl as <-.
      destruct (write_det (Some da) (output_of args) wa' wb') as (He & Hl & Hr).
      simpl in He, Hl, Hr. repeat split; [exact He | now rewrite Hl | exact Hr].
  - apply truthy_Some in Hs. destruct Hs as (p & Hp & _).
    specialize (Hi Summary p Hp). rewrite Hp. simpl.
    pose proof (det_summary E _ D p (readtype args) _ _ Hi) as Hl.
    destruct (ext_summary E p (readtype args) wa) as [[ea|da] wa'],
             (ext_summary E p (readtype args) wb) as [[eb|db] wb'];
      simpl in *; try discriminate.
    + injection Hl as <-. repeat split. discriminate.
    + injection Hl as <-.
      destruct (write_det (Some da) (output_of args) wa' wb') as (He & Hl & Hr).
      simpl in He, Hl, Hr. repeat split; [exact He | now rewrite Hl | exact Hr].
  - destruct (write_det None (output_of args) wa wb) as (He & Hl & Hr).
    simpl in He, Hl, Hr. repeat split; [exact He | exact Hl | exact Hr].
Qed.

(** Two runs of [main] on the same command line, from two worlds that
    agree on the file of the data source. *)
Lemma main_det (argv : list arg) (args : Namespace) (w1 w2 : World) :
  get_args int argv = Parsed args ->
  (forall s p, attr s args = Some p -> file_at w1 p = file_at w2 p) ->
  let r1 := run E (main int argv) w1 in
  let r2 := run E (main int argv) w2 in
  makedirs_raised (log r1) = false ->
  makedirs_raised (log r2) = false ->
  ending r1 = ending r2 /\
  library_log (log r1) = library_log (log r2) /\
  (ending r1 = Returned tt ->
   file_at (final r1) (output_of args) = file_at (final r2) (output_of args)).
Proof.
  intros H Hi.
  rewrite (run_main_parsed _ _ w1 H), (run_main_parsed _ _ w2 H).
  cbv zeta.
  pose proof (det_makedirs E _ D (outdir args)) as Hm.
  destruct (ext_exists E (outdir args) w1), (ext_exists E (outdir args) w2).
  - intros _ _. apply (load_and_report_det args w1 w2 Hi).
  - pose proof (fun p => Hm p w2) as Hm2.
    destruct (ext_makedirs E (outdir args) w2) as [[e|u] w2'];
      simpl in *; [discriminate|]. intros _ _.
    apply (load_and_report_det args w1 w2').
    intros s p Hp. rewrite Hm2. now apply (Hi s).
  - pose proof (fun p => Hm p w1) as Hm1.
    destruct (ext_makedirs E (outdir args) w1) as [[e|u] w1'];
      simpl in *; [discriminate|]. intros _ _.
    apply (load_and_report_det args w1' w2).
    intros s p Hp. rewrite Hm1. now apply (Hi s).
  - pose proof (fun p => Hm p w1) as Hm1.
    pose proof (fun p => Hm p w2) as Hm2.
    destruct (ext_makedirs E (outdir args) w1) as [[e|u] w1'];
      simpl in *; [discriminate|].
    destruct (ext_makedirs E (outdir args) w2) as [[e|u'] w2'];
      simpl in *; [discriminate|]. intros _ _.
    apply (load_and_report_det args w1' w2').
    intros s p Hp. rewrite Hm1, Hm2. now apply (Hi s).
Qed.

End Determinism.

End Running.

(** ** The data source on the command line *)

(** C1, as amended.  On a command line that has neither the version nor
    the help option, anything but exactly one of the three data source
    options ends the parse in a usage error: [main] leaves with status
    2, has made no call (no file system call, no loader, no writer) and
    has left the world as it found it. *)
Theorem usage_error_unless_one_source {DataFrame World : Type}
    (int : string -> option Z) (E : Externals DataFrame World)
    (argv : list arg) (w : World) :
  no_flags argv = true ->
  n_supplied argv <> 1%nat ->
  (exists e, get_args int argv = UsageError e) /\
  run E (main int argv) w = mkResult [] w (Exited 2) /\
  process_status (ending (run E (main int argv) w)) = 2%Z.
Proof.
  intros Hf Hn.
  destruct (get_args_not_one int argv Hf Hn) as [e He].
  rewrite (main_usage_error int E argv e w He).
  split; [now exists e | split; reflexivity].
Qed.

Lemma usage_error_unless_one_source_witness :
  let argv := [Given (Target Fastq) "reads.fastq"; Given Outdir "out";
               Given (Target Bam) "reads.bam"] in
  (exists e, get_args Toy.int argv = UsageError e) /\
  run Toy.E (main Toy.int argv) Toy.w0 =
    mkResult [] Toy.w0 (Exited 2) /\
  process_status (ending (run Toy.E (main Toy.int argv) Toy.w0))
    = 2%Z.
Proof.
  apply (usage_error_unless_one_source Toy.int Toy.E
           [Given (Target Fastq) "reads.fastq"; Given Outdir "out";
            Given (Target Bam) "reads.bam"] Toy.w0).
  - reflexivity.
  - vm_compute. lia.
Defined.

(** C1 as it is written fails where the version option stands alone:
    no data source is given, and the process ends with status 0. *)
Lemma version_alone_exits_zero :
  ~ (n_supplied [VersionFlag] <> 1%nat ->
     process_status
       (ending (run Toy.E (main Toy.int [VersionFlag]) Toy.w0))
     <> 0%Z).
Proof.
  intros H. apply H.
  - vm_compute. lia.
  - reflexivity.
Qed.

(** C7, as amended.  A [--readtype] outside the three choices, or a
    [--threads] that [int] does not take, ends the parse in a usage
    error when neither the version nor the help option comes before it:
    [main] leaves with status 2 and has made no call, so no loader has
    run. *)
Theorem usage_error_on_rejected_value {DataFrame World : Type}
    (int : string -> option Z) (E : Externals DataFrame World)
    (pre : list arg) (bad : arg) (post : list arg) (w : World) :
  no_flags pre = true ->
  rejected int bad = true ->
  let argv := (pre ++ bad :: post)%list in
  (exists e, get_args int argv = UsageError e) /\
  run E (main int argv) w = mkResult [] w (Exited 2) /\
  loader_calls (log (run E (main int argv) w)) = [] /\
  process_status (ending (run E (main int argv) w)) = 2%Z.
Proof.
  intros Hf Hbad argv.
  destruct (consume_rejected int pre bad post Hf Hbad [] [] defaults)
    as [e He].
  fold (get_args int (pre ++ bad :: post)) in He. fold argv in He.
  rewrite (main_usage_error int E argv e w He).
  split; [now exists e | repeat split].
Qed.

Lemma usage_error_on_rejected_value_witness :
  let argv := [Given (Target Summary) "reads.fastq"; Given Readtype "3D";
               Given Threads "8"] in
  (exists e, get_args Toy.int argv = UsageError e) /\
  run Toy.E (main Toy.int argv) Toy.w0 =
    mkResult [] Toy.w0 (Exited 2) /\
  loader_calls (log (run Toy.E (main Toy.int argv) Toy.w0)) = [] /\
  process_status (ending (run Toy.E (main Toy.int argv) Toy.w0))
    = 2%Z.
Proof.
  apply (usage_error_on_rejected_value Toy.int Toy.E
           [Given (Target Summary) "reads.fastq"] (Given Readtype "3D")
           [Given Threads "8"] Toy.w0).
  - reflexivity.
  - reflexivity.
Defined.

(** C7 as it is written fails where the version option comes first:
    the read type is not among the choices, and the process ends with
    status 0. *)
Lemma version_before_bad_readtype_exits_zero :
  ~ (In (Given Readtype "3D") [VersionFlag; Given Readtype "3D"] ->
     in_choices "3D" = false ->
     process_status
       (ending (run Toy.E
                    (main Toy.int [VersionFlag; Given Readtype "3D"])
                    Toy.w0)) <> 0%Z).
Proof.
  intros H. apply H.
  - right. left. reflexivity.
  - reflexivity.
  - reflexivity.
Qed.

(** ** The dispatcher *)

(** C2, at the command line [--fastq ""].  The parse succeeds with one
    data source given and one attribute populated, and [get_input]
    takes none of its three branches: it returns [None] without a call,
    and the run of [main] has no loader in its log; [write_stats] is
    handed [None]. *)
Theorem empty_fastq_path_runs_no_loader {DataFrame World : Type}
    (int : string -> option Z) (E : Externals DataFrame World) (w : World) :
  let argv := [Given (Target Fastq) ""] in
  let args := set_fastq "" defaults in
  n_supplied argv = 1%nat /\
  get_args int argv = Parsed args /\
  populated args = 1%nat /\
  get_input (DataFrame := DataFrame) args = Ret None /\
  loader_calls (log (run E (main int argv) w)) = [] /\
  calls (log (run E (load_and_report args) w)) =
    [write_stats None "./NanoStats.txt"].
Proof.
  intros argv args. repeat split.
  - rewrite (run_main_parsed int E argv args w eq_refl).
    change (outdir args) with ".".
    change (load_and_report args)
      with (write (DataFrame := DataFrame) None "./NanoStats.txt").
    destruct (ext_exists E "." w); simpl.
    + destruct (ext_write E None "./NanoStats.txt" w) as [[e|u] w'];
        reflexivity.
    + destruct (ext_makedirs E "." w) as [[e|u] w']; simpl; [reflexivity|].
      destruct (ext_write E None "./NanoStats.txt" w') as [[e|u'] w''];
        reflexivity.
  - change (load_and_report args)
      with (write (DataFrame := DataFrame) None "./NanoStats.txt").
    simpl.
    destruct (ext_write E None "./NanoStats.txt" w) as [[e|u] w'];
      reflexivity.
Qed.

(** C3, at the command line [--summary "" --readtype 2D].  The summary
    attribute is set and the read type is "2D", yet [get_input] calls
    no loader: [process_summary] does not appear in the run, and
    [write_stats] is handed [None]. *)
Theorem empty_summary_path_forwards_nothing {DataFrame World : Type}
    (int : string -> option Z) (E : Externals DataFrame World) (w : World) :
  let argv := [Given (Target Summary) ""; Given Readtype "2D"] in
  let args := set_readtype "2D" (set_summary "" defaults) in
  get_args int argv = Parsed args /\
  summary args = Some "" /\ readtype args = "2D" /\
  get_input (DataFrame := DataFrame) args = Ret None /\
  (forall path rtype,
     ~ In (process_summary path rtype) (calls (log (run E (main int argv) w)))) /\
  calls (log (run E (load_and_report args) w)) =
    [write_stats None "./NanoStats.txt"].
Proof.
  intros argv args. repeat split.
  - intros path rtype.
    rewrite (run_main_parsed int E argv args w eq_refl).
    change (outdir args) with ".".
    change (load_and_report args)
      with (write (DataFrame := DataFrame) None "./NanoStats.txt").
    destruct (ext_exists E "." w); simpl.
    + destruct (ext_write E None "./NanoStats.txt" w) as [[e|u] w']; simpl;
        intros H; repeat destruct H as [H|H]; try discriminate; contradiction.
    + destruct (ext_makedirs E "." w) as [[e|u] w']; simpl.
      * intros H; repeat destruct H as [H|H]; try discriminate; contradiction.
      * destruct (ext_write E None "./NanoStats.txt" w') as [[e|u'] w''];
          simpl; intros H; repeat destruct H as [H|H]; try discriminate;
          contradiction.
  - change (load_and_report args)
      with (write (DataFrame := DataFrame) None "./NanoStats.txt").
    simpl.
    destruct (ext_write E None "./NanoStats.txt" w) as [[e|u] w'];
      reflexivity.
Qed.

(** ** Where the report goes *)

(** C4.  When the parsed name is empty (the default, no explicit output
    name), the destination is [os.path.join] of the output directory
    and the prefix put directly in front of "NanoStats.txt": whatever
    the join does with the directory, the destination ends in the
    prefix followed at once by "NanoStats.txt".  With the directory "."
    and the prefix "run1_" it is "./run1_NanoStats.txt".  Every
    [write_stats] call of the run has this destination, and a run that
    returns has made exactly one. *)
Theorem default_destination {DataFrame World : Type}
    (int : string -> option Z) (E : Externals DataFrame World)
    (argv : list arg) (args : Namespace) (w : World) :
  get_args int argv = Parsed args ->
  name args = "" ->
  let r := run E (main int argv) w in
  output_of args = os_path_join (outdir args) (prefix args ++ "NanoStats.txt") /\
  (exists dir, output_of args = dir ++ prefix args ++ "NanoStats.txt") /\
  (outdir args = "." -> prefix args = "run1_" ->
   output_of args = "./run1_NanoStats.txt") /\
  (forall d o, In (write_stats d o) (calls (log r)) ->
   o = os_path_join (outdir args) (prefix args ++ "NanoStats.txt")) /\
  (ending r = Returned tt ->
   exists d, write_calls (log r) =
     [write_stats d (os_path_join (outdir args) (prefix args ++ "NanoStats.txt"))]).
Proof.
  intros H Hname r.
  assert (Ho : output_of args =
               os_path_join (outdir args) (prefix args ++ "NanoStats.txt")).
  { unfold output_of. now rewrite Hname. }
  destruct (main_writes int E argv args w H) as [Hw Hr].
  fold r in Hw, Hr. rewrite Ho in Hw, Hr.
  split; [exact Ho|]. split.
  - rewrite Ho. apply os_path_join_suffix.
  - split; [|split; assumption].
    intros Hd Hp. rewrite Ho, Hd, Hp. reflexivity.
Qed.

Lemma default_destination_witness :
  let argv := [Given (Target Fastq) "reads.fastq"; Given Prefix "run1_"] in
  let args := set_prefix "run1_" (set_fastq "reads.fastq" defaults) in
  let r := run Toy.E (main Toy.int argv) Toy.w0 in
  output_of args = "./run1_NanoStats.txt" /\
  exists d, write_calls (log r) = [write_stats d "./run1_NanoStats.txt"].
Proof.
  intros argv args r.
  destruct (default_destination Toy.int Toy.E argv args Toy.w0
              eq_refl eq_refl)
    as (_ & _ & Hrun1 & _ & Hret).
  split.
  - exact (Hrun1 eq_refl eq_refl).
  - exact (Hret eq_refl).
Defined.

(** C5.  When the parsed name is not empty, "stdout" included, the
    destination is that name: the output directory and the prefix can
    be replaced by anything without changing it.  Every [write_stats]
    call of the run has the name as its destination, and a run that
    returns has made exactly one. *)
Theorem explicit_name_is_destination {DataFrame World : Type}
    (int : string -> option Z) (E : Externals DataFrame World)
    (argv : list arg) (args : Namespace) (w : World) :
  get_args int argv = Parsed args ->
  name args <> "" ->
  let r := run E (main int argv) w in
  output_of args = name args /\
  (forall dir pre, output_of (set_outdir dir (set_prefix pre args)) = name args) /\
  (forall d o, In (write_stats d o) (calls (log r)) -> o = name args) /\
  (ending r = Returned tt ->
   exists d, write_calls (log r) = [write_stats d (name args)]).
Proof.
  intros H Hname r.
  apply truthy_str_true in Hname.
  assert (Ho : output_of args = name args).
  { unfold output_of. now rewrite Hname. }
  destruct (main_writes int E argv args w H) as [Hw Hr].
  fold r in Hw, Hr. rewrite Ho in Hw, Hr.
  split; [exact Ho|]. split; [|split; assumption].
  intros dir pre. unfold output_of. simpl. now rewrite Hname.
Qed.

Lemma explicit_name_is_destination_witness :
  let argv := [Given Outdir "out"; Given Prefix "run1_";
               Given (Target Fastq) "reads.fastq"; Given Name "stdout"] in
  let args := set_name "stdout"
                (set_fastq "reads.fastq"
                   (set_prefix "run1_" (set_outdir "out" defaults))) in
  let r := run Toy.E (main Toy.int argv) Toy.w0 in
  output_of args = "stdout" /\
  exists d, write_calls (log r) = [write_stats d "stdout"].
Proof.
  intros argv args r.
  assert (Hname : name args <> "") by (vm_compute; discriminate).
  destruct (explicit_name_is_destination Toy.int Toy.E argv args
              Toy.w0 eq_refl Hname)
    as (Ho & _ & _ & Hret).
  split.
  - exact Ho.
  - exact (Hret eq_refl).
Defined.

(** ** The small world keeps the contracts *)

Lemma toy_makedirs_creates : MakedirsCreates Toy.E.
Proof.
  intros path w w' u. simpl. unfold Toy.makedirs.
  destruct (Toy.exists_ path w); [discriminate|].
  intros H. injection H as _ <-. split.
  - unfold Toy.exists_. simpl. now rewrite String.eqb_refl.
  - intros q Hq. unfold Toy.exists_. simpl.
    apply orb_true_iff. left. apply orb_true_iff. right.
    apply existsb_exists. exists q. split.
    + apply in_or_app. now left.
    + apply String.eqb_refl.
Qed.

Lemma toy_load_world (path : string) (w : Toy.World) :
  snd (Toy.load path w) = w.
Proof. unfold Toy.load. now destruct (Toy.lookup path w). Qed.

Lemma toy_keeps_paths : KeepsPaths Toy.E.
Proof.
  split; simpl; intros q; intros;
    try (rewrite toy_load_world; assumption).
  unfold Toy.write. destruct d as [d|]; simpl; [|assumption].
  unfold Toy.exists_, Toy.lookup in *. simpl.
  destruct (existsb (String.eqb q) (Toy.dirs w)); [reflexivity|].
  simpl in *. destruct (String.eqb q o); [reflexivity | assumption].
Qed.

Lemma toy_deterministic : Deterministic Toy.E (fun w p => Toy.lookup p w).
Proof.
  split; simpl.
  - intros path _ w w' H. unfold Toy.load. rewrite H.
    now destruct (Toy.lookup path w').
  - intros path _ w w' H. unfold Toy.load. rewrite H.
    now destruct (Toy.lookup path w').
  - intros path _ w w' H. unfold Toy.load. rewrite H.
    now destruct (Toy.lookup path w').
  - intros [d|] o w w'; reflexivity.
  - intros [d|] o w w' u u'; simpl; [|discriminate].
    intros _ _. unfold Toy.lookup. simpl. now rewrite String.eqb_refl.
  - intros dir path w. unfold Toy.makedirs.
    now destruct (Toy.exists_ dir w).
Qed.

(** ** The output directory *)

Section Directory.

Context {DataFrame World : Type}.
Variable E : Externals DataFrame World.
Hypothesis K : KeepsPaths E.

(** Under [KeepsPaths], what exists when the dataset is about to be
    loaded exists when the run is over. *)
Lemma load_and_report_keeps (args : Namespace) (q : string) (w : World) :
  ext_exists E q w = true ->
  ext_exists E q (final (run E (load_and_report args) w)) = true.
Proof.
  intros H. unfold load_and_report, get_input.
  assert (Hw : forall d w1, ext_exists E q w1 = true ->
            ext_exists E q (final (run E (write d (output_of args)) w1)) = true).
  { intros d w1 H1. simpl.
    pose proof (keeps_write E K q d (output_of args) w1 H1) as H2.
    destruct (ext_write E d (output_of args) w1) as [[e|u] w2]; exact H2. }
  destruct (truthy (fastq args)); [|destruct (truthy (bam args));
    [|destruct (truthy (summary args))]]; simpl.
  - pose proof (keeps_fastq E K q (str (fastq args)) (threads args) w H) as H1.
    destruct (ext_fastq E (str (fastq args)) (threads args) w) as [[e|d] w1];
      simpl in *; [exact H1 | now apply (Hw (Some d))].
  - pose proof (keeps_bam E K q (str (bam args)) (threads args) w H) as H1.
    destruct (ext_bam E (str (bam args)) (threads args) w) as [[e|d] w1];
      simpl in *; [exact H1 | now apply (Hw (Some d))].
  - pose proof (keeps_summary E K q (str (summary args)) (readtype args) w H) as H1.
    destruct (ext_summary E (str (summary args)) (readtype args) w) as [[e|d] w1];
      simpl in *; [exact H1 | now apply (Hw (Some d))].
  - now apply (Hw None).
Qed.

End Directory.

(** The tree world: making a directory changes no file. *)
Lemma posix_mkdir_files (path : string) (w : Posix.World) :
  Posix.files (snd (Posix.mkdir path w)) = Posix.files w.
Proof.
  unfold Posix.mkdir.
  destruct (String.eqb path ""); [reflexivity|].
  destruct (Posix.drop_empty (rev (Posix.components path))) as [|last above];
    [reflexivity|].
  destruct (Posix.walk w (Posix.start w path) (rev above)) as [parent|];
    [|reflexivity].
  now destruct (String.eqb last "." || String.eqb last ".."
                || Posix.is_dir w (parent ++ [last])%list
                || Posix.is_file path w).
Qed.

Lemma posix_makedirs_files (fuel : nat) :
  forall name w,
  Posix.files (snd (Posix.makedirs_upto fuel name w)) = Posix.files w.
Proof.
  induction fuel as [|fuel IH]; intros name w; [reflexivity|].
  simpl.
  match goal with
  | |- context [let (_, _) := ?x in _] => destruct x as [head tail]
  end.
  destruct (negb (String.eqb head "") && negb (String.eqb tail "")
            && negb (Posix.exists_ head w)); [|apply posix_mkdir_files].
  specialize (IH head w).
  destruct (Posix.makedirs_upto fuel head w) as [[e|u] w1]; simpl in IH.
  - destruct (String.eqb (exn_class e) "FileExistsError"); [|exact IH].
    destruct (String.eqb tail "."); [exact IH|].
    now rewrite posix_mkdir_files.
  - destruct (String.eqb tail "."); [exact IH|].
    now rewrite posix_mkdir_files.
Qed.

Lemma posix_deterministic :
  Deterministic Posix.E (fun w p => Posix.lookup p w).
Proof.
  split; simpl.
  - intros path _ w w' H. unfold Posix.load. rewrite H.
    now destruct (Posix.lookup path w').
  - intros path _ w w' H. unfold Posix.load. rewrite H.
    now destruct (Posix.lookup path w').
  - intros path _ w w' H. unfold Posix.load. rewrite H.
    now destruct (Posix.lookup path w').
  - intros [d|] o w w'; reflexivity.
  - intros [d|] o w w' u u'; simpl; [|discriminate].
    intros _ _. unfold Posix.lookup. simpl. now rewrite String.eqb_refl.
  - intros dir path w. unfold Posix.lookup, Posix.makedirs.
    now rewrite posix_makedirs_files.
Qed.

(** C6, as amended.  After a successful parse the guard of line 42
    decides alone.  If [os.path.exists] says the output directory is
    there, whatever kind of path it is, [os.makedirs] is not called, so
    the run cannot fail over a directory that is there already.  If it
    says the directory is not there, [os.makedirs] is called on it
    right after the test and before every other call, the loaders and
    [write_stats] among them; when that call raises, as it can, the run
    ends with its exception and nothing has been loaded or written.
    With [os.makedirs] doing what its documentation says when it
    returns and the libraries removing nothing, a run in which
    [os.makedirs] did not raise ends with the path in place, its
    intermediate directories too when it had to be made, and a second
    run of the same command line in the world the first one left does
    not call [os.makedirs]. *)
Theorem outdir_made_when_missing {DataFrame World : Type}
    (int : string -> option Z) (E : Externals DataFrame World)
    (argv : list arg) (args : Namespace) (w : World) :
  get_args int argv = Parsed args ->
  let r1 := run E (main int argv) w in
  let r2 := run E (main int argv) (final r1) in
  (ext_exists E (outdir args) w = true ->
   mutations (log r1) = [] /\ makedirs_raised (log r1) = false) /\
  (ext_exists E (outdir args) w = false ->
   exists a rest,
     log r1 = (os_path_exists (outdir args), ABool false)
              :: (os_makedirs (outdir args), a) :: rest /\
     mutations rest = [] /\
     (forall e, a = ARaise e ->
      rest = [] /\ ending r1 = Raised e /\
      loader_calls (log r1) = [] /\ write_calls (log r1) = [])) /\
  (MakedirsCreates E -> KeepsPaths E ->
   makedirs_raised (log r1) = false ->
   ext_exists E (outdir args) (final r1) = true /\
   (ext_exists E (outdir args) w = false ->
    forall q, In q (ancestors (outdir args)) ->
    ext_exists E q (final r1) = true) /\
   mutations (log r2) = [] /\ makedirs_raised (log r2) = false).
Proof.
  intros H r1 r2.
  destruct (main_mutations int E argv args w H) as [Hthere _].
  split; [exact Hthere|]. split.
  - intros Hex. unfold r1. rewrite (run_main_parsed int E argv args w H), Hex.
    destruct (ext_makedirs E (outdir args) w) as [[e|u] w'].
    + exists (ARaise e), []. split; [reflexivity|]. split; [reflexivity|].
      intros e' He'. injection He' as <-. repeat split.
    + exists ANone, (log (run E (load_and_report args) w')).
      split; [reflexivity|]. split; [|discriminate].
      apply load_and_report_mutations.
  - intros MC K Hnr.
    assert (HA : ext_exists E (outdir args) (final r1) = true /\
                 (ext_exists E (outdir args) w = false ->
                  forall q, In q (ancestors (outdir args)) ->
                  ext_exists E q (final r1) = true)).
    { revert Hnr. unfold r1. rewrite (run_main_parsed int E argv args w H).
      destruct (ext_exists E (outdir args) w) eqn:Hex.
      - intros _. split; [|discriminate].
        now apply load_and_report_keeps.
      - destruct (ext_makedirs E (outdir args) w) as [[e|u] w'] eqn:Hmk;
          [discriminate|].
        intros _. destruct (MC _ _ _ _ Hmk) as [Hleaf Hanc]. split.
        + now apply load_and_report_keeps.
        + intros _ q Hq. apply load_and_report_keeps; [assumption|].
          now apply Hanc. }
    destruct HA as [Hleaf Hanc].
    split; [exact Hleaf|]. split; [exact Hanc|].
    destruct (main_mutations int E argv args (final r1) H) as [Hagain _].
    exact (Hagain Hleaf).
Qed.

Lemma outdir_made_when_missing_witness :
  let argv := [Given (Target Fastq) "reads.fastq"; Given Outdir "out/a/b"] in
  let r1 := run Toy.E (main Toy.int argv) Toy.w0 in
  let r2 := run Toy.E (main Toy.int argv) (final r1) in
  Toy.exists_ "out/a/b" Toy.w0 = false /\
  Toy.exists_ "out/a/b" (final r1) = true /\
  (forall q, In q ["out/a"; "out"] -> Toy.exists_ q (final r1) = true) /\
  mutations (log r2) = [] /\
  ending r2 = Returned tt.
Proof.
  intros argv r1 r2.
  destruct (outdir_made_when_missing Toy.int Toy.E argv
              (set_outdir "out/a/b" (set_fastq "reads.fastq" defaults))
              Toy.w0 eq_refl)
    as (_ & _ & Hrun).
  destruct (Hrun toy_makedirs_creates toy_keeps_paths eq_refl)
    as (Hleaf & Hanc & Hmut & _).
  split; [reflexivity|]. split; [exact Hleaf|].
  split; [exact (Hanc eq_refl)|]. split; [exact Hmut | reflexivity].
Defined.

(** C6 as it is written fails for the output directory "newdir/.." in a
    directory that has no "newdir": the path does not exist, the guard
    lets [os.makedirs] run, and [os.makedirs] raises the error for a
    directory that exists, after it has made "newdir". *)
Lemma guarded_makedirs_finds_the_directory :
  ~ (Posix.exists_ "newdir/.." Posix.w0 = false ->
     ending Posix.first_run <> Raised (FileExistsError "newdir/..")).
Proof.
  intros H. apply H.
  - reflexivity.
  - reflexivity.
Qed.

(** The empty output directory does not exist and is not made either:
    [os.makedirs] raises and the path is as absent as before. *)
Example empty_outdir_is_not_made :
  let r := run Posix.E
               (main Toy.int [Given (Target Fastq) "reads.fastq"; Given Outdir ""])
               Posix.w0 in
  Posix.exists_ "" Posix.w0 = false /\
  ending r = Raised (Posix.FileNotFoundError "") /\
  Posix.exists_ "" (final r) = false.
Proof. repeat split. Qed.



(** ** Failures *)

(** C9.  Whatever call of a run raises, a loader in particular, its
    exception is the one [main] ends with: the raising call is the last
    line of the log, nothing is called after it, and the process ends
    with the status of an uncaught exception.  Unless the call that
    raised is [write_stats] itself, no report has been asked for. *)
Theorem failure_ends_the_run {DataFrame World : Type}
    (int : string -> option Z) (E : Externals DataFrame World)
    (argv : list arg) (w : World) (c : call DataFrame) (e : exn) :
  let r := run E (main int argv) w in
  In (c, ARaise e) (log r) ->
  ending r = Raised e /\
  (exists l, log r = (l ++ [(c, ARaise e)])%list) /\
  process_status (ending r) = 1%Z /\
  (is_write c = false -> write_calls (log r) = []).
Proof.
  intros r Hin.
  destruct (run_raise_last E (main int argv) w c e Hin) as [Hend Hlast].
  fold r in Hend, Hlast.
  split; [exact Hend|]. split; [exact Hlast|].
  split; [now rewrite Hend|].
  intros Hc. revert Hin. unfold r.
  destruct (get_args int argv) as [args| |u] eqn:H.
  - rewrite (run_main_parsed int E argv args w H).
    destruct (ext_exists E (outdir args) w).
    + intros [Hin|Hin]; [discriminate|].
      apply (load_and_report_raise E args w c e Hin Hc).
    + destruct (ext_makedirs E (outdir args) w) as [[e0|u] w'].
      * reflexivity.
      * intros [Hin|[Hin|Hin]]; try discriminate.
        apply (load_and_report_raise E args w' c e Hin Hc).
  - now rewrite (main_printed int E argv w H).
  - now rewrite (main_usage_error int E argv u w H).
Qed.

Lemma failure_ends_the_run_witness :
  let argv := [Given (Target Bam) "reads.bam"; Given Outdir "out"] in
  let r := run Toy.E (main Toy.int argv) Toy.w0 in
  let e := mkExn "FileNotFoundError" "reads.bam" in
  In (process_bam "reads.bam" 4, ARaise e) (log r) /\
  ending r = Raised e /\
  write_calls (log r) = [].
Proof.
  intros argv r e.
  assert (Hin : In (process_bam "reads.bam" 4, ARaise e) (log r)).
  { right. right. left. reflexivity. }
  destruct (failure_ends_the_run Toy.int Toy.E argv Toy.w0
              (process_bam "reads.bam" 4) e Hin)
    as (Hend & _ & _ & Hw).
  split; [exact Hin|]. split; [exact Hend | exact (Hw eq_refl)].
Defined.

(** ** Two runs *)

(** A run stopped by [os.makedirs] has asked for no report. *)
Lemma main_makedirs_raised {DataFrame World : Type}
    (int : string -> option Z) (E : Externals DataFrame World)
    (argv : list arg) (args : Namespace) (w : World) :
  get_args int argv = Parsed args ->
  makedirs_raised (log (run E (main int argv) w)) = true ->
  filter (fun en => is_write (fst en)) (log (run E (main int argv) w)) = [] /\
  exists e, ending (run E (main int argv) w) = Raised e.
Proof.
  intros H. rewrite (run_main_parsed int E argv args w H).
  destruct (ext_exists E (outdir args) w).
  - destruct (load_and_report_mutations E args w) as [_ Hno].
    simpl. rewrite Hno. discriminate.
  - destruct (ext_makedirs E (outdir args) w) as [[e|u] w'].
    + intros _. split; [reflexivity | now exists e].
    + destruct (load_and_report_mutations E args w') as [_ Hno].
      simpl. rewrite Hno. discriminate.
Qed.

Lemma written_library_log {DataFrame : Type} (l : list (entry DataFrame)) :
  filter (fun en => is_write (fst en)) (library_log l) =
  filter (fun en => is_write (fst en)) l.
Proof.
  unfold library_log, is_library.
  induction l as [|[c a] l IH]; [reflexivity|].
  simpl. destruct (is_loader c), (is_write c) eqn:Hw; simpl;
    rewrite ?Hw, IH; reflexivity.
Qed.

(** C8, as amended.  Take loaders and a writer that are deterministic:
    a loader's answer is fixed by its arguments and the file at its
    path, the writer's answer and the report it leaves are fixed by its
    arguments.  Of two runs of one valid command line, from two worlds
    in which the file of the data source is the same, whenever both
    write a report they make the same [write_stats] call with the same
    answer, and when both return, the reports at the destination are
    equal.  When [os.makedirs] raises in neither run, both end the same
    way and make the same library calls with the same answers.  A run
    that [os.makedirs] stops writes no report, whatever the other run
    does. *)
Theorem same_arguments_same_report {DataFrame World Content : Type}
    (int : string -> option Z) (E : Externals DataFrame World)
    (file_at : World -> string -> Content)
    (argv : list arg) (args : Namespace) (w1 w2 : World) :
  Deterministic E file_at ->
  get_args int argv = Parsed args ->
  (forall s p, attr s args = Some p -> file_at w1 p = file_at w2 p) ->
  let r1 := run E (main int argv) w1 in
  let r2 := run E (main int argv) w2 in
  let written := fun r : run_result DataFrame World unit =>
                   filter (fun en => is_write (fst en)) (log r) in
  (written r1 = [] \/ written r2 = [] \/ written r1 = written r2) /\
  (ending r1 = Returned tt -> ending r2 = Returned tt ->
   file_at (final r1) (output_of args) = file_at (final r2) (output_of args)) /\
  (makedirs_raised (log r1) = false -> makedirs_raised (log r2) = false ->
   ending r1 = ending r2 /\ library_log (log r1) = library_log (log r2)).
Proof.
  intros D H Hfiles r1 r2 written.
  pose proof (main_det int E file_at D argv args w1 w2 H Hfiles) as Hdet.
  cbv zeta in Hdet. fold r1 r2 in Hdet.
  pose proof (main_makedirs_raised int E argv args w1 H) as Hm1.
  pose proof (main_makedirs_raised int E argv args w2 H) as Hm2.
  fold r1 in Hm1. fold r2 in Hm2.
  destruct (makedirs_raised (log r1)) eqn:H1.
  - destruct (Hm1 eq_refl) as [Hw1 [e1 He1]].
    split; [now left|]. split; [|discriminate].
    intros Hret. rewrite Hret in He1. discriminate.
  - destruct (makedirs_raised (log r2)) eqn:H2.
    + destruct (Hm2 eq_refl) as [Hw2 [e2 He2]].
      split; [right; now left|]. split; [|discriminate].
      intros _ Hret. rewrite Hret in He2. discriminate.
    + destruct (Hdet eq_refl eq_refl) as (Hend & Hlib & Hrep).
      split; [|split].
      * right. right. unfold written.
        rewrite <- (written_library_log (log r1)),
                <- (written_library_log (log r2)).
        now rewrite Hlib.
      * intros Hret _. now apply Hrep.
      * intros _ _. now split.
Qed.

Lemma same_arguments_same_report_witness :
  let argv := [Given (Target Fastq) "reads.fastq"; Given Outdir "out"] in
  let r1 := run Toy.E (main Toy.int argv) Toy.w0 in
  let r2 := run Toy.E (main Toy.int argv) (final r1) in
  mutations (log r1) = [os_makedirs "out"] /\
  mutations (log r2) = [] /\
  ending r1 = ending r2 /\
  library_log (log r1) = library_log (log r2) /\
  Toy.lookup "out/NanoStats.txt" (final r1) =
  Toy.lookup "out/NanoStats.txt" (final r2).
Proof.
  intros argv r1 r2.
  assert (Hfiles : forall s p,
            attr s (set_outdir "out" (set_fastq "reads.fastq" defaults)) = Some p ->
            Toy.lookup p Toy.w0 = Toy.lookup p (final r1)).
  { intros [] p Hp; simpl in Hp; try discriminate.
    injection Hp as <-. reflexivity. }
  destruct (same_arguments_same_report Toy.int Toy.E
              (fun w p => Toy.lookup p w) argv
              (set_outdir "out" (set_fastq "reads.fastq" defaults))
              Toy.w0 (final r1)
              toy_deterministic eq_refl Hfiles)
    as (_ & Hrep & Hsame).
  destruct (Hsame eq_refl eq_refl) as [Hend Hlib].
  split; [reflexivity|]. split; [reflexivity|].
  split; [exact Hend|]. split; [exact Hlib | exact (Hrep eq_refl eq_refl)].
Defined.

(** C8 as it is written fails for the output directory "newdir/..": the
    loaders and the writer are deterministic and the FASTQ file is the
    same for both runs, but the first run is stopped by [os.makedirs]
    and leaves no report, and the second one, which finds "newdir"
    made, writes it. *)
Lemma first_run_stops_second_run_reports :
  ~ (Deterministic Posix.E (fun w p => Posix.lookup p w) ->
     Posix.lookup "reads.fastq" Posix.w0 =
     Posix.lookup "reads.fastq" (final Posix.first_run) ->
     Posix.lookup "newdir/../NanoStats.txt" (final Posix.first_run) =
     Posix.lookup "newdir/../NanoStats.txt" (final Posix.second_run)).
Proof.
  intros H.
  specialize (H posix_deterministic eq_refl).
  vm_compute in H. discriminate H.
Qed.

(** * Further properties of the script *)

(** ** More on [get_args] *)

Section MoreParsing.

Variable int : string -> option Z.

(** A path in the namespace was there before or stands on the command
    line behind the option of its source. *)
Lemma consume_attr_given (argv : list arg) :
  forall seen extras ns args,
  consume int argv seen extras ns = Parsed args ->
  forall s p, attr s args = Some p ->
  attr s ns = Some p \/ In (Given (Target s) p) argv.
Proof.
  induction argv as [|a argv IH]; intros seen extras ns args H s p Hp.
  - simpl in H. destruct seen; [discriminate|].
    destruct extras; [|discriminate]. injection H as <-. now left.
  - destruct a as [o v|o| | |u]; simpl in H; try discriminate.
    + destruct (store int o v seen ns) as [e|[ns' seen']] eqn:Hst;
        [discriminate|].
      destruct (IH _ _ _ _ H s p Hp) as [Hns'|Hin]; [|right; now right].
      apply attr_store in Hst.
      destruct o as [| | | | |s0];
        try (destruct Hst as [_ Hattr]; left; now rewrite <- Hattr).
      destruct Hst as (_ & _ & Hset & Hother).
      destruct (source_eqb s s0) eqn:Hs.
      * apply source_eqb_eq in Hs. subst s0. right. left.
        rewrite Hset in Hns'. now injection Hns' as ->.
      * left. rewrite <- Hother; [assumption|].
        intros ->. rewrite source_eqb_refl in Hs. discriminate.
    + destruct (IH _ _ _ _ H s p Hp) as [Hns|Hin]; [now left | right; now right].
Qed.

(** The read type stays among the choices. *)
Lemma consume_readtype (argv : list arg) :
  forall seen extras ns args,
  consume int argv seen extras ns = Parsed args ->
  in_choices (readtype ns) = true -> in_choices (readtype args) = true.
Proof.
  induction argv as [|a argv IH]; intros seen extras ns args H Hr.
  - simpl in H. destruct seen; [discriminate|].
    destruct extras; [|discriminate]. now injection H as <-.
  - destruct a as [o v|o| | |u]; simpl in H; try discriminate.
    + destruct o as [| | | | |s]; simpl in H.
      * apply (IH _ _ _ _ H). exact Hr.
      * apply (IH _ _ _ _ H). exact Hr.
      * apply (IH _ _ _ _ H). exact Hr.
      * destruct (int v); [|discriminate]. apply (IH _ _ _ _ H). exact Hr.
      * destruct (in_choices v) eqn:Hv; [|discriminate].
        apply (IH _ _ _ _ H). exact Hv.
      * destruct (seen_other s seen); [discriminate|].
        apply (IH _ _ _ _ H). now destruct s.
    + apply (IH _ _ _ _ H). exact Hr.
Qed.

(** A string that no declaration matches is kept, and the parse cannot
    succeed any more. *)
Lemma consume_extras (argv : list arg) :
  forall seen extras ns args,
  consume int argv seen extras ns = Parsed args -> extras = [].
Proof.
  induction argv as [|a argv IH]; intros seen extras ns args H.
  - simpl in H. destruct seen; [discriminate|]. now destruct extras.
  - destruct a as [o v|o| | |u]; simpl in H; try discriminate.
    + destruct (store int o v seen ns) as [e|[ns' seen']]; [discriminate|].
      now apply IH in H.
    + apply IH in H. discriminate.
Qed.

Lemma consume_well_formed (argv : list arg) :
  forall seen extras ns args,
  consume int argv seen extras ns = Parsed args ->
  forall a, In a argv -> exists o v, a = Given o v.
Proof.
  induction argv as [|a argv IH]; intros seen extras ns args H b Hb;
    [contradiction|].
  destruct a as [o v|o| | |u]; simpl in H; try discriminate.
  - destruct Hb as [<-|Hb]; [now exists o, v|].
    destruct (store int o v seen ns) as [e|[ns' seen']]; [discriminate|].
    now apply (IH _ _ _ _ H).
  - apply consume_extras in H. discriminate.
Qed.

(** Where a parse that succeeds stands when the command line is used
    up: the state from which a longer command line goes on. *)
Lemma consume_app (pre : list arg) :
  forall seen extras ns args,
  (forall a b, In a seen -> In b seen -> a = b) ->
  (forall s, attr s ns <> None <-> In s seen) ->
  consume int pre seen extras ns = Parsed args ->
  exists seen',
    seen' <> [] /\
    (forall a b, In a seen' -> In b seen' -> a = b) /\
    (forall s, attr s args <> None <-> In s seen') /\
    forall post,
      consume int (pre ++ post) seen extras ns = consume int post seen' [] args.
Proof.
  induction pre as [|a pre IH]; intros seen extras ns args Hu Ht H.
  - simpl in H. destruct seen as [|s0 seen]; [discriminate|].
    destruct extras; [|discriminate]. injection H as <-.
    exists (s0 :: seen). repeat split; try assumption; try apply Ht.
    discriminate.
  - destruct a as [o v|o| | |u]; simpl in H; try discriminate.
    + destruct (store int o v seen ns) as [e|[ns' seen']] eqn:Hst;
        [discriminate|].
      pose proof (attr_store int _ _ _ _ _ _ Hst) as Hs.
      assert (Hinv : (forall a b, In a seen' -> In b seen' -> a = b) /\
                     (forall s, attr s ns' <> None <-> In s seen')).
      { destruct o as [| | | | |s0];
          try (destruct Hs as [-> Hattr]; split; [assumption|];
               intros s; rewrite Hattr; apply Ht).
        destruct Hs as (-> & Hall & Hset & Hother). split.
        - intros a b [<-|Ha] [<-|Hb]; try reflexivity.
          + symmetry. now apply Hall.
          + now apply Hall.
          + now apply Hu.
        - intros s'. destruct (source_eqb s' s0) eqn:Hs'.
          + apply source_eqb_eq in Hs'. subst s'. rewrite Hset.
            split; [now left | discriminate].
          + assert (Hne : s' <> s0).
            { intros ->. rewrite source_eqb_refl in Hs'. discriminate. }
            rewrite (Hother s' Hne), Ht. split; [now right|].
            intros [->|Hin]; [now elim Hne | assumption]. }
      destruct Hinv as [Hu' Ht'].
      destruct (IH _ _ _ _ Hu' Ht' H) as (seen'' & Hne & Hu'' & Ht'' & Happ).
      exists seen''. repeat split; try assumption; try apply Ht''.
      intros post. simpl. rewrite Hst. apply Happ.
    + destruct (IH _ _ _ _ Hu Ht H) as (seen'' & Hne & Hu'' & Ht'' & Happ).
      exists seen''. repeat split; try assumption; apply Ht''.
Qed.

End MoreParsing.

(** X1.  A parse that succeeds had no version or help option to deal
    with and exactly one of the three data source options; exactly one
    of the three attributes is populated in the namespace, and a path
    it holds is a path the command line gives for that very source. *)
Theorem parsed_has_one_source (int : string -> option Z)
    (argv : list arg) (args : Namespace) :
  get_args int argv = Parsed args ->
  no_flags argv = true /\
  n_supplied argv = 1%nat /\
  populated args = 1%nat /\
  forall s p, attr s args = Some p -> In (Given (Target s) p) argv.
Proof.
  intros H.
  assert (Hf : no_flags argv = true)
    by exact (consume_parsed_no_flags int argv _ _ _ _ H).
  split; [exact Hf|]. split; [|split].
  - destruct (Nat.eq_dec (n_supplied argv) 1) as [Hn|Hn]; [exact Hn|].
    destruct (get_args_not_one int argv Hf Hn) as [e He].
    rewrite He in H. discriminate.
  - exact (get_args_populated int argv args H).
  - intros s p Hp.
    destruct (consume_attr_given int argv _ _ _ _ H s p Hp) as [Hd|Hin];
      [|exact Hin].
    destruct s; discriminate.
Qed.

Lemma parsed_has_one_source_witness :
  let argv := [Given Threads "8"; Given (Target Bam) "old.bam";
               Given (Target Bam) "reads.bam"] in
  n_supplied argv = 1%nat /\
  In (Given (Target Bam) "reads.bam") argv.
Proof.
  intros argv.
  destruct (parsed_has_one_source Toy.int argv
              (set_bam "reads.bam" (set_bam "old.bam" (set_threads 8 defaults)))
              eq_refl)
    as (_ & Hn & _ & Hin).
  split; [exact Hn | exact (Hin Bam "reads.bam" eq_refl)].
Defined.

(** X2.  After a parse that succeeds the read type is one of "1D", "2D"
    and "1D2", the default included. *)
Theorem parsed_readtype_is_a_choice (int : string -> option Z)
    (argv : list arg) (args : Namespace) :
  get_args int argv = Parsed args ->
  readtype args = "1D" \/ readtype args = "2D" \/ readtype args = "1D2".
Proof.
  intros H.
  pose proof (consume_readtype int argv _ _ _ _ H eq_refl) as Hr.
  unfold in_choices, choices in Hr. simpl in Hr.
  destruct (String.eqb_spec (readtype args) "1D") as [->|_]; [now left|].
  destruct (String.eqb_spec (readtype args) "2D") as [->|_]; [right; now left|].
  destruct (String.eqb_spec (readtype args) "1D2") as [->|_];
    [right; now right | discriminate].
Qed.

Lemma parsed_readtype_is_a_choice_witness :
  let args := set_readtype "1D2" (set_summary "summary.txt" defaults) in
  readtype args = "1D" \/ readtype args = "2D" \/ readtype args = "1D2".
Proof.
  intros args.
  exact (parsed_readtype_is_a_choice Toy.int
           [Given (Target Summary) "summary.txt"; Given Readtype "1D2"]
           args eq_refl).
Defined.

(** X4.  An option without its argument, or a string that no
    declaration matches, is never passed over: unless a version or help
    option is on the command line, the parse ends in a usage error and
    [main] exits with status 2 without a call. *)
Theorem malformed_command_line_is_refused {DataFrame World : Type}
    (int : string -> option Z) (E : Externals DataFrame World)
    (argv : list arg) (a : arg) (w : World) :
  no_flags argv = true ->
  In a argv ->
  (forall o v, a <> Given o v) ->
  (exists e, get_args int argv = UsageError e) /\
  run E (main int argv) w = mkResult [] w (Exited 2).
Proof.
  intros Hf Hin Ha.
  destruct (get_args int argv) as [args| |e] eqn:H.
  - destruct (consume_well_formed int argv _ _ _ _ H a Hin) as (o & v & ->).
    now elim (Ha o v).
  - exfalso. unfold get_args in H. clear Hin.
    assert (Hgen : forall seen extras ns,
              consume int argv seen extras ns <> PrintedAndExit).
    { clear H. induction argv as [|b argv IH]; intros seen extras ns.
      - simpl. destruct seen; [discriminate|]. now destruct extras.
      - apply no_flags_cons in Hf. destruct Hf as [Hb Hf].
        destruct b as [o v|o| | |u]; simpl in Hb; try discriminate Hb; simpl.
        + destruct (store int o v seen ns) as [e|[ns' seen']];
            [discriminate | now apply IH].
        + discriminate.
        + now apply IH. }
    now apply (Hgen [] [] defaults).
  - split; [now exists e|]. now apply (main_usage_error int E argv e w).
Qed.

Lemma malformed_command_line_is_refused_witness :
  let argv := [Given (Target Fastq) "reads.fastq"; Unrecognized "extra.fastq"] in
  (exists e, get_args Toy.int argv = UsageError e) /\
  run Toy.E (main Toy.int argv) Toy.w0 = mkResult [] Toy.w0 (Exited 2).
Proof.
  intros argv.
  apply (malformed_command_line_is_refused Toy.int Toy.E argv
           (Unrecognized "extra.fastq") Toy.w0).
  - reflexivity.
  - right. left. reflexivity.
  - intros o v. discriminate.
Defined.

Lemma get_args_app (int : string -> option Z) (argv : list arg)
    (args : Namespace) :
  get_args int argv = Parsed args ->
  exists seen,
    seen <> [] /\
    (forall a b, In a seen -> In b seen -> a = b) /\
    (forall s, attr s args <> None <-> In s seen) /\
    forall post, get_args int (argv ++ post) = consume int post seen [] args.
Proof.
  intros H. apply (consume_app int argv [] [] defaults args).
  - intros a b [].
  - intros []; simpl; split; intros H'; try contradiction; now elim H'.
  - exact H.
Qed.

(** X5.  An option given once more at the end of a command line that
    parses replaces the value it had and nothing else.  For the thread
    count and the read type the new value is checked as a first one is:
    a thread count [int] does not take and a read type outside the
    choices are refused. *)
Theorem later_option_overrides (int : string -> option Z)
    (argv : list arg) (args : Namespace) (v : string) :
  get_args int argv = Parsed args ->
  get_args int (argv ++ [Given Outdir v]) = Parsed (set_outdir v args) /\
  get_args int (argv ++ [Given Prefix v]) = Parsed (set_prefix v args) /\
  get_args int (argv ++ [Given Name v]) = Parsed (set_name v args) /\
  get_args int (argv ++ [Given Threads v]) =
    match int v with
    | Some n => Parsed (set_threads n args)
    | None => UsageError (InvalidIntValue v)
    end /\
  get_args int (argv ++ [Given Readtype v]) =
    if in_choices v then Parsed (set_readtype v args)
    else UsageError (InvalidChoice v).
Proof.
  intros H.
  destruct (get_args_app int argv args H) as (seen & Hne & _ & _ & Happ).
  rewrite !Happ. simpl.
  destruct seen as [|s seen]; [now elim Hne|].
  repeat split.
  - now destruct (int v).
  - now destruct (in_choices v).
Qed.

Lemma later_option_overrides_witness :
  get_args Toy.int [Given (Target Fastq) "reads.fastq"; Given Threads "2";
                    Given Threads "16"]
  = Parsed (set_threads 16 (set_threads 2 (set_fastq "reads.fastq" defaults))).
Proof.
  destruct (later_option_overrides Toy.int
              [Given (Target Fastq) "reads.fastq"; Given Threads "2"]
              (set_threads 2 (set_fastq "reads.fastq" defaults)) "16" eq_refl)
    as (_ & _ & _ & Ht & _).
  exact Ht.
Defined.

(** X6.  Once a command line parses, the data source it names is
    settled: the same source option given again at the end replaces the
    path, either of the other two is refused as not allowed with the
    one already there. *)
Theorem source_is_settled (int : string -> option Z)
    (argv : list arg) (args : Namespace) (s : source) (v : string) :
  get_args int argv = Parsed args ->
  (attr s args <> None ->
   get_args int (argv ++ [Given (Target s) v]) =
   Parsed match s with
          | Fastq => set_fastq v args
          | Summary => set_summary v args
          | Bam => set_bam v args
          end) /\
  (attr s args = None ->
   exists earlier,
     attr earlier args <> None /\
     get_args int (argv ++ [Given (Target s) v]) =
     UsageError (NotAllowedWith s earlier)).
Proof.
  intros H.
  destruct (get_args_app int argv args H) as (seen & Hne & Hu & Ht & Happ).
  rewrite Happ. simpl. split.
  - intros Hs. apply Ht in Hs.
    assert (Hnone : seen_other s seen = None).
    { apply seen_other_None. intros s' Hs'. now apply Hu. }
    now rewrite Hnone.
  - intros Hs.
    destruct (seen_other s seen) as [earlier|] eqn:Hso.
    + exists earlier. split; [|reflexivity].
      apply Ht. unfold seen_other in Hso. now apply find_some in Hso.
    + exfalso. rewrite seen_other_None in Hso.
      destruct seen as [|s0 seen]; [now elim Hne|].
      assert (Hin : In s (s0 :: seen)).
      { left. apply Hso. now left. }
      apply Ht in Hin. now elim Hin.
Qed.

Lemma source_is_settled_witness :
  get_args Toy.int [Given (Target Fastq) "a.fastq"; Given (Target Fastq) "b.fastq"]
    = Parsed (set_fastq "b.fastq" (set_fastq "a.fastq" defaults)) /\
  exists earlier,
    get_args Toy.int [Given (Target Fastq) "a.fastq"; Given (Target Bam) "b.bam"]
    = UsageError (NotAllowedWith Bam earlier).
Proof.
  split.
  - destruct (source_is_settled Toy.int [Given (Target Fastq) "a.fastq"]
                (set_fastq "a.fastq" defaults) Fastq "b.fastq" eq_refl)
      as [Hsame _].
    apply Hsame. discriminate.
  - destruct (source_is_settled Toy.int [Given (Target Fastq) "a.fastq"]
                (set_fastq "a.fastq" defaults) Bam "b.bam" eq_refl)
      as [_ Hother].
    destruct (Hother eq_refl) as (earlier & _ & He).
    now exists earlier.
Defined.

(** ** More on [main] and [get_input] *)

Section MoreRunning.

Context {DataFrame World : Type}.
Variable int : string -> option Z.
Variable E : Externals DataFrame World.

(** An exception a run ends with was raised by a call of its log. *)
Lemma run_raised_entry {A : Type} (p : prog DataFrame A) :
  forall w e,
  ending (run E p w) = Raised e ->
  exists c, In (c, ARaise e) (log (run E p w)).
Proof.
  induction p as [a|n|path k IH|path k IH|path n k IH|path n k IH
                  |path r k IH|d o k IH]; intros w e H; simpl in *;
    try discriminate.
  - destruct (IH _ _ _ H) as [c Hc]. exists c. now right.
  - destruct (ext_makedirs E path w) as [[e0|u] w']; simpl in *.
    + injection H as ->. eexists. left. reflexivity.
    + destruct (IH _ _ H) as [c Hc]. exists c. now right.
  - destruct (ext_fastq E path n w) as [[e0|d] w']; simpl in *.
    + injection H as ->. eexists. left. reflexivity.
    + destruct (IH _ _ _ H) as [c Hc]. exists c. now right.
  - destruct (ext_bam E path n w) as [[e0|d] w']; simpl in *.
    + injection H as ->. eexists. left. reflexivity.
    + destruct (IH _ _ _ H) as [c Hc]. exists c. now right.
  - destruct (ext_summary E path r w) as [[e0|d] w']; simpl in *.
    + injection H as ->. eexists. left. reflexivity.
    + destruct (IH _ _ _ H) as [c Hc]. exists c. now right.
  - destruct (ext_write E d o w) as [[e0|u] w']; simpl in *.
    + injection H as ->. eexists. left. reflexivity.
    + destruct (IH _ _ H) as [c Hc]. exists c. now right.
Qed.

Ltac branches :=
  unfold load_and_report, get_input;
  repeat match goal with
         | |- context [truthy ?x] => destruct (truthy x) eqn:?
         end;
  simpl;
  repeat match goal with
         | |- context [ext_fastq ?e ?p ?n ?w] =>
             destruct (ext_fastq e p n w) as [[?|?] ?] eqn:?; simpl
         | |- context [ext_bam ?e ?p ?n ?w] =>
             destruct (ext_bam e p n w) as [[?|?] ?] eqn:?; simpl
         | |- context [ext_summary ?e ?p ?r ?w] =>
             destruct (ext_summary e p r w) as [[?|?] ?] eqn:?; simpl
         | |- context [ext_write ?e ?d ?o ?w] =>
             destruct (ext_write e d o w) as [[?|?] ?] eqn:?; simpl
         end.

(** Past the parse nothing calls [sys.exit]. *)
Lemma load_and_report_ending (args : Namespace) (w : World) :
  ending (run E (load_and_report args) w) = Returned tt \/
  exists e, ending (run E (load_and_report args) w) = Raised e.
Proof. branches; try (now left); right; eexists; reflexivity. Qed.

Lemma main_parsed_ending (argv : list arg) (args : Namespace) (w : World) :
  get_args int argv = Parsed args ->
  ending (run E (main int argv) w) = Returned tt \/
  exists e, ending (run E (main int argv) w) = Raised e.
Proof.
  intros H. rewrite (run_main_parsed int E argv args w H).
  destruct (ext_exists E (outdir args) w).
  - apply load_and_report_ending.
  - destruct (ext_makedirs E (outdir args) w) as [[e|u] w'].
    + right. now exists e.
    + apply load_and_report_ending.
Qed.

(** At most one loader and one writer call, the loader first. *)
Lemma load_and_report_counts (args : Namespace) (w : World) :
  let l := log (run E (load_and_report args) w) in
  (length (loader_calls l) <= 1)%nat /\
  (length (write_calls l) <= 1)%nat /\
  (length l <= 2)%nat.
Proof. branches; repeat split; auto. Qed.

(** What [write_stats] is handed: the dataset the loader of this run
    returned, or [None] when no loader was called. *)
Lemma load_and_report_dataset (args : Namespace) (w : World) :
  let l := log (run E (load_and_report args) w) in
  forall d o a, In (write_stats d o, a) l ->
  match d with
  | Some d0 => exists c, is_loader c = true /\ In (c, AData d0) l
  | None => loader_calls l = []
  end.
Proof.
  branches; intros d' o' a' Hin; simpl in Hin;
    repeat destruct Hin as [Hin|Hin]; try discriminate; try contradiction;
    injection Hin as <- _ _;
    try reflexivity;
    eexists; (split; [|left; reflexivity]); reflexivity.
Qed.

End MoreRunning.

(** X8.  A run of [main] makes at most four calls: the test of the
    output directory, at most one [os.makedirs], at most one loader and
    at most one [write_stats]. *)
Theorem at_most_one_call_of_each_kind {DataFrame World : Type}
    (int : string -> option Z) (E : Externals DataFrame World)
    (argv : list arg) (w : World) :
  let l := log (run E (main int argv) w) in
  (length (mutations l) <= 1)%nat /\
  (length (loader_calls l) <= 1)%nat /\
  (length (write_calls l) <= 1)%nat /\
  (length l <= 4)%nat.
Proof.
  intros l. unfold l.
  destruct (get_args int argv) as [args| |u] eqn:H.
  - rewrite (run_main_parsed int E argv args w H).
    destruct (ext_exists E (outdir args) w).
    + destruct (load_and_report_counts E args w) as (Hl & Hw & Hn).
      destruct (load_and_report_mutations E args w) as [Hm _].
      unfold mutations in *. simpl. rewrite Hm. simpl.
      repeat split; try assumption; lia.
    + destruct (ext_makedirs E (outdir args) w) as [[e|u] w'].
      * simpl. repeat split; lia.
      * destruct (load_and_report_counts E args w') as (Hl & Hw & Hn).
        destruct (load_and_report_mutations E args w') as [Hm _].
        unfold mutations in *. simpl. rewrite Hm. simpl.
        repeat split; try assumption; lia.
  - rewrite (main_printed int E argv w H). simpl. repeat split; lia.
  - rewrite (main_usage_error int E argv u w H). simpl. repeat split; lia.
Qed.

(** X9.  [main] hands [write_stats] what [get_input] returned: the very
    dataset a loader of this run answered with, or [None] when the run
    has called no loader. *)
Theorem report_gets_the_loaded_dataset {DataFrame World : Type}
    (int : string -> option Z) (E : Externals DataFrame World)
    (argv : list arg) (w : World)
    (d : option DataFrame) (o : string) (a : answer DataFrame) :
  let l := log (run E (main int argv) w) in
  In (write_stats d o, a) l ->
  match d with
  | Some d0 => exists c, is_loader c = true /\ In (c, AData d0) l
  | None => loader_calls l = []
  end.
Proof.
  intros l. unfold l.
  destruct (get_args int argv) as [args| |u] eqn:H.
  - rewrite (run_main_parsed int E argv args w H).
    destruct (ext_exists E (outdir args) w).
    + intros [Hin|Hin]; [discriminate|].
      pose proof (load_and_report_dataset E args w d o a Hin) as Hd.
      destruct d as [d0|]; [|exact Hd].
      destruct Hd as (c & Hc & Hcin). exists c. split; [exact Hc | now right].
    + destruct (ext_makedirs E (outdir args) w) as [[e|u] w'].
      * intros [Hin|[Hin|[]]]; discriminate.
      * intros [Hin|[Hin|Hin]]; try discriminate.
        pose proof (load_and_report_dataset E args w' d o a Hin) as Hd.
        destruct d as [d0|]; [|exact Hd].
        destruct Hd as (c & Hc & Hcin). exists c.
        split; [exact Hc | right; now right].
  - rewrite (main_printed int E argv w H). intros [].
  - rewrite (main_usage_error int E argv u w H). intros [].
Qed.

Lemma report_gets_the_loaded_dataset_witness :
  let argv := [Given (Target Fastq) "reads.fastq"] in
  let l := log (run Toy.E (main Toy.int argv) Toy.w0) in
  exists c, is_loader c = true /\ In (c, AData [4; 2]%Z) l.
Proof.
  intros argv l.
  apply (report_gets_the_loaded_dataset Toy.int Toy.E argv Toy.w0
           (Some [4; 2]%Z) "./NanoStats.txt" ANone).
  right. right. left. reflexivity.
Defined.

(** X10.  After a parse that succeeds, a run in which no call raises
    returns: the status is 0 and exactly one report has been written,
    to the destination of the namespace. *)
Theorem no_failure_means_one_report {DataFrame World : Type}
    (int : string -> option Z) (E : Externals DataFrame World)
    (argv : list arg) (args : Namespace) (w : World) :
  get_args int argv = Parsed args ->
  let r := run E (main int argv) w in
  (forall c e, ~ In (c, ARaise e) (log r)) ->
  ending r = Returned tt /\
  process_status (ending r) = 0%Z /\
  exists d, write_calls (log r) = [write_stats d (output_of args)].
Proof.
  intros H r Hno.
  assert (Hret : ending r = Returned tt).
  { destruct (main_parsed_ending int E argv args w H) as [Hret|[e He]];
      [exact Hret|].
    destruct (run_raised_entry E (main int argv) w e He) as [c Hc].
    now elim (Hno c e). }
  split; [exact Hret|]. split; [now rewrite Hret|].
  destruct (main_writes int E argv args w H) as [_ Hw]. now apply Hw.
Qed.

Lemma no_failure_means_one_report_witness :
  let argv := [Given (Target Summary) "reads.fastq"; Given Outdir "out"] in
  let r := run Toy.E (main Toy.int argv) Toy.w0 in
  ending r = Returned tt /\
  exists d, write_calls (log r) = [write_stats d "out/NanoStats.txt"].
Proof.
  intros argv r.
  destruct (no_failure_means_one_report Toy.int Toy.E argv
              (set_outdir "out" (set_summary "reads.fastq" defaults))
              Toy.w0 eq_refl)
    as (Hret & _ & Hw).
  - intros c e Hin. simpl in Hin.
    repeat destruct Hin as [Hin|Hin]; try discriminate; contradiction.
  - split; [exact Hret | exact Hw].
Defined.

(** X11.  When the path of the data source is not the empty string and
    [os.makedirs] has not raised, the run calls exactly one loader: the
    one of the source that was given, with that path, and with the
    thread count for a FASTQ or BAM file, the read type for a summary
    file. *)
Theorem loader_gets_its_parameters {DataFrame World : Type}
    (int : string -> option Z) (E : Externals DataFrame World)
    (argv : list arg) (args : Namespace) (w : World)
    (s : source) (p : string) :
  get_args int argv = Parsed args ->
  attr s args = Some p -> p <> "" ->
  let r := run E (main int argv) w in
  makedirs_raised (log r) = false ->
  loader_calls (log r) =
  [match s with
   | Fastq => process_fastq_plain p (threads args)
   | Bam => process_bam p (threads args)
   | Summary => process_summary p (readtype args)
   end].
Proof.
  intros H Hs Hp r. unfold r.
  rewrite (run_main_parsed int E argv args w H).
  assert (Hload : forall w1,
            loader_calls (log (run E (load_and_report args) w1)) =
            [match s with
             | Fastq => process_fastq_plain p (threads args)
             | Bam => process_bam p (threads args)
             | Summary => process_summary p (readtype args)
             end]).
  { intros w1. unfold load_and_report.
    rewrite (get_input_parsed int argv args H s p Hs Hp).
    destruct s; simpl.
    - destruct (ext_fastq E p (threads args) w1) as [[e|d] w2]; simpl;
        [reflexivity|].
      now destruct (ext_write E (Some d) (output_of args) w2) as [[e|u] w3].
    - destruct (ext_summary E p (readtype args) w1) as [[e|d] w2]; simpl;
        [reflexivity|].
      now destruct (ext_write E (Some d) (output_of args) w2) as [[e|u] w3].
    - destruct (ext_bam E p (threads args) w1) as [[e|d] w2]; simpl;
        [reflexivity|].
      now destruct (ext_write E (Some d) (output_of args) w2) as [[e|u] w3]. }
  destruct (ext_exists E (outdir args) w).
  - intros _. apply Hload.
  - destruct (ext_makedirs E (outdir args) w) as [[e|u] w'].
    + discriminate.
    + intros _. apply Hload.
Qed.

Lemma loader_gets_its_parameters_witness :
  let argv := [Given (Target Summary) "summary.txt"; Given Threads "8";
               Given Readtype "2D"] in
  loader_calls (log (run Toy.E (main Toy.int argv) Toy.w0)) =
  [process_summary "summary.txt" "2D"].
Proof.
  intros argv.
  apply (loader_gets_its_parameters Toy.int Toy.E argv
           (set_readtype "2D" (set_threads 8 (set_summary "summary.txt" defaults)))
           Toy.w0 Summary "summary.txt").
  - reflexivity.
  - reflexivity.
  - discriminate.
  - reflexivity.
Defined.
